(** * winvault: marshaling of Windows Vault records into Go values

    A shallow embedding of the Go package [winvault]
    (types in the package's type file, the converters
    [utf16PtrToString], [goBytes], [convertToVaultItemElement],
    [convertToVaultItem7], [convertToVaultItem8], the native gateway of
    [syscall.go] and the session functions of [winvault.go]).

    Native memory is a partial, byte-addressed map; every load is
    recorded, so that statements about what a converter reads can be
    made.  The native entry points of [vaultcli.dll] are an oracle over
    an abstract native state; every call through a [LazyProc] is
    recorded in an event trace. *)

From Stdlib Require Import ZArith List Bool Lia.
From Stdlib Require Import Strings.String Strings.Ascii Strings.Byte.
Import ListNotations.
Open Scope Z_scope.

(** ** Machine parameters *)

(** The package builds for 32-bit and 64-bit Windows; the size of
    [uintptr], of pointers and of [int] follows the target. *)
Inductive GoArch := Arch32 | Arch64.

Definition ptrSize (a : GoArch) : Z :=
  match a with Arch32 => 4 | Arch64 => 8 end.

Definition ptrBits (a : GoArch) : Z := 8 * ptrSize a.

(** [uintptr] arithmetic wraps around. *)
Definition uintptr (a : GoArch) (z : Z) : Z := z mod 2 ^ ptrBits a.

(** Conversion to Go's signed [int]. *)
Definition to_int (a : GoArch) (z : Z) : Z :=
  (z + 2 ^ (ptrBits a - 1)) mod 2 ^ ptrBits a - 2 ^ (ptrBits a - 1).

Definition to_int32 (z : Z) : Z := (z + 2 ^ 31) mod 2 ^ 32 - 2 ^ 31.
Definition to_int64 (z : Z) : Z := (z + 2 ^ 63) mod 2 ^ 64 - 2 ^ 63.

(** Rounding an offset up to a field's alignment (Go struct layout). *)
Definition align_up (off al : Z) : Z := ((off + al - 1) / al) * al.

(** ** Bytes and Go strings

    A Go [string] is an immutable byte sequence: it is modelled by
    [string], whose characters are bytes.  A [[]byte] is a [list byte]. *)

Definition byte_of_Z (z : Z) : byte :=
  match Byte.of_N (Z.to_N (z mod 256)) with
  | Some b => b
  | None => x00
  end.

Definition Z_of_byte (b : byte) : Z := Z.of_N (Byte.to_N b).

(** [[]byte(s)] and [string(b)]. *)
Definition bytes_of_gostring (s : string) : list byte := list_byte_of_string s.
Definition gostring_of_bytes (b : list byte) : string := string_of_list_byte b.

(** ** Native memory and the reader monad *)

Definition memory := Z -> option byte.

(** How a run ends: with a value, with an access to unmapped memory,
    with a Go run-time panic, without an end within the fuel given
    to the only unbounded loop of the package (the scan for the zero
    unit in [utf16PtrToString]), or outside what the model describes
    (the run-time system stops the process with a fatal error, or
    memory safety is lost). *)
Inductive outcome (A : Type) : Type :=
| Ok (a : A)
| Fault (addr : Z)
| Panic
| OutOfFuel
| Undefined.
Arguments Ok {A} a.
Arguments Fault {A} addr.
Arguments Panic {A}.
Arguments OutOfFuel {A}.
Arguments Undefined {A}.

(** One load: its address and its width in bytes. *)
Definition access : Type := Z * Z.

Definition Rd (A : Type) : Type := memory -> outcome A * list access.

Definition rd_ret {A} (a : A) : Rd A := fun _ => (Ok a, []).

Definition rd_bind {A B} (c : Rd A) (k : A -> Rd B) : Rd B :=
  fun m =>
    match c m with
    | (Ok a, l1) => let (r, l2) := k a m in (r, l1 ++ l2)
    | (Fault p, l1) => (Fault p, l1)
    | (Panic, l1) => (Panic, l1)
    | (OutOfFuel, l1) => (OutOfFuel, l1)
    | (Undefined, l1) => (Undefined, l1)
    end.

Definition rd_fail {A} (o : outcome A) : Rd A := fun _ => (o, []).

Declare Scope rd_scope.
Delimit Scope rd_scope with rd.
Notation "x <- c ;; k" := (rd_bind c (fun x => k))
  (at level 61, c at next level, right associativity) : rd_scope.

(** The value and the loads of a run. *)
Definition result {A} (r : outcome A * list access) : outcome A := fst r.
Definition loads {A} (r : outcome A * list access) : list access := snd r.

(** Little-endian value of [n] bytes at [p]; [None] when one of them is
    not mapped. *)
Fixpoint peek (m : memory) (n : nat) (p : Z) : option Z :=
  match n with
  | O => Some 0
  | S n' =>
      match m p, peek m n' (p + 1) with
      | Some b, Some hi => Some (Z_of_byte b + 256 * hi)
      | _, _ => None
      end
  end.

Definition load (n : nat) (p : Z) : Rd Z :=
  fun m =>
    (match peek m n p with Some v => Ok v | None => Fault p end,
     [(p, Z.of_nat n)]).

Definition load_u16 (p : Z) : Rd Z := load 2 p.
Definition load_u32 (p : Z) : Rd Z := load 4 p.
Definition load_ptr (a : GoArch) (p : Z) : Rd Z :=
  load (Z.to_nat (ptrSize a)) p.

Open Scope rd_scope.

Definition load_i32 (p : Z) : Rd Z :=
  v <- load 4 p ;; rd_ret (to_int32 v).

(** [n] single bytes from [p] on. *)
Fixpoint load_bytes (n : nat) (p : Z) : Rd (list byte) :=
  match n with
  | O => rd_ret []
  | S n' =>
      b <- load 1 p ;;
      bs <- load_bytes n' (p + 1) ;;
      rd_ret (byte_of_Z b :: bs)
  end.

(** ** UTF-16 and UTF-8 (Go's [unicode/utf16] and the conversion
    [string([]rune)]) *)

Definition surr1 : Z := 0xd800.
Definition surr2 : Z := 0xdc00.
Definition surr3 : Z := 0xe000.
Definition surrSelf : Z := 0x10000.
Definition replacementChar : Z := 0xFFFD.
Definition maxRune : Z := 0x10FFFF.

Definition DecodeRune (r1 r2 : Z) : Z :=
  Z.lor (Z.shiftl (r1 - surr1) 10) (r2 - surr2) + surrSelf.

(** [utf16.Decode]: a unit outside the surrogate range is a rune; a
    high surrogate followed by a low one is one rune; any other
    surrogate is replaced by U+FFFD. *)
Fixpoint Decode (s : list Z) : list Z :=
  match s with
  | [] => []
  | r :: rest =>
      if (r <? surr1) || (surr3 <=? r) then r :: Decode rest
      else
        match rest with
        | r2 :: rest' =>
            if (r <? surr2) && (surr2 <=? r2) && (r2 <? surr3)
            then DecodeRune r r2 :: Decode rest'
            else replacementChar :: Decode rest
        | [] => [replacementChar]
        end
  end.

(** UTF-8 encoding of one rune, as [string(rune)] does it: a surrogate
    or a value out of range is encoded as U+FFFD. *)
Definition encodeRune (r : Z) : list byte :=
  let r := if (r <? 0) || (maxRune <? r) || ((surr1 <=? r) && (r <? surr3))
           then replacementChar else r in
  if r <? 0x80 then [byte_of_Z r]
  else if r <? 0x800 then
    [byte_of_Z (Z.lor 0xC0 (Z.shiftr r 6));
     byte_of_Z (Z.lor 0x80 (Z.land r 0x3F))]
  else if r <? 0x10000 then
    [byte_of_Z (Z.lor 0xE0 (Z.shiftr r 12));
     byte_of_Z (Z.lor 0x80 (Z.land (Z.shiftr r 6) 0x3F));
     byte_of_Z (Z.lor 0x80 (Z.land r 0x3F))]
  else
    [byte_of_Z (Z.lor 0xF0 (Z.shiftr r 18));
     byte_of_Z (Z.lor 0x80 (Z.land (Z.shiftr r 12) 0x3F));
     byte_of_Z (Z.lor 0x80 (Z.land (Z.shiftr r 6) 0x3F));
     byte_of_Z (Z.lor 0x80 (Z.land r 0x3F))].

Definition gostring_of_runes (rs : list Z) : string :=
  gostring_of_bytes (flat_map encodeRune rs).

(** ** The types of the package *)

(** [ElementType], an [iota] enumeration. *)
Inductive ElementType := ElementTypeString | ElementTypeByteArray.

(** The two implementations of the interface [VaultItemElement], each
    with its methods. *)
Module VaultItemElementString.
Record t := mk { id : Z; value : string }.
Definition Type_ (e : t) : ElementType := ElementTypeString.
Definition ID (e : t) : Z := id e.
Definition AsString (e : t) : string := value e.
Definition AsByteArray (e : t) : list byte := bytes_of_gostring (value e).
End VaultItemElementString.

Module VaultItemElementByteArray.
Record t := mk { id : Z; value : list byte }.
Definition Type_ (e : t) : ElementType := ElementTypeByteArray.
Definition ID (e : t) : Z := id e.
Definition AsString (e : t) : string := gostring_of_bytes (value e).
Definition AsByteArray (e : t) : list byte := value e.
End VaultItemElementByteArray.

(** A non-nil value of the interface [VaultItemElement]: a pointer to
    one of the two implementations.  The nil interface value is [None]
    of [option VaultItemElement]. *)
Inductive VaultItemElement :=
| ElemString (e : VaultItemElementString.t)
| ElemByteArray (e : VaultItemElementByteArray.t).

(** Dynamic dispatch of the interface's methods. *)
Definition ID (e : VaultItemElement) : Z :=
  match e with
  | ElemString s => VaultItemElementString.ID s
  | ElemByteArray b => VaultItemElementByteArray.ID b
  end.

Definition Type_ (e : VaultItemElement) : ElementType :=
  match e with
  | ElemString s => VaultItemElementString.Type_ s
  | ElemByteArray b => VaultItemElementByteArray.Type_ b
  end.

Definition AsString (e : VaultItemElement) : string :=
  match e with
  | ElemString s => VaultItemElementString.AsString s
  | ElemByteArray b => VaultItemElementByteArray.AsString b
  end.

Definition AsByteArray (e : VaultItemElement) : list byte :=
  match e with
  | ElemString s => VaultItemElementString.AsByteArray s
  | ElemByteArray b => VaultItemElementByteArray.AsByteArray b
  end.

(** [time.Time], as the instant [time.Unix] builds: seconds since the
    Unix epoch and nanoseconds within the second. *)
Record Time := mkTime { sec : Z; nsec : Z }.

(** [time.Unix(sec, nsec)]; Go's [/] truncates toward zero. *)
Definition time_Unix (s n : Z) : Time :=
  if (n <? 0) || (1000000000 <=? n) then
    let q := Z.quot n 1000000000 in
    let s := to_int64 (s + q) in
    let n := n - q * 1000000000 in
    if n <? 0 then mkTime (to_int64 (s - 1)) (n + 1000000000)
    else mkTime s n
  else mkTime s n.

(** [syscall.Filetime] and its method [Nanoseconds]; the arithmetic is
    on [int64]. *)
Record Filetime := mkFiletime { LowDateTime : Z; HighDateTime : Z }.

Definition Nanoseconds (ft : Filetime) : Z :=
  let n := to_int64 (to_int64 (Z.shiftl (HighDateTime ft) 32) + LowDateTime ft) in
  let n := to_int64 (n - 116444736000000000) in
  to_int64 (n * 100).

Record VaultItem := mkVaultItem {
  VI_ID : list byte;
  VI_Name : string;
  VI_Resource : option VaultItemElement;
  VI_Identity : option VaultItemElement;
  VI_Authenticator : option VaultItemElement;
  VI_LastModified : Time
}.

Record Vault := mkVault {
  V_ID : list byte;
  V_Name : string;
  V_Path : string;
  V_handle : Z
}.

(** [syscall.InvalidHandle] is [^Handle(0)]. *)
Definition InvalidHandle (a : GoArch) : Z := 2 ^ ptrBits a - 1.

(** The only error values the package makes: [syscall.Errno(ret)]. *)
Inductive error := Errno (code : Z).

(** ** Native constants and record layouts ([syscall.go]) *)

Definition NO_ERROR : Z := 0.

Definition vaultInformationKindName : Z := 0x01.
Definition vaultInformationKindPath7 : Z := 0x08.
Definition vaultInformationKindPath8 : Z := 0x04.

Definition vaultElementTypeUndefined : Z := -1.
Definition vaultElementTypeBoolean : Z := 0.
Definition vaultElementTypeShort : Z := 1.
Definition vaultElementTypeUnsignedShort : Z := 2.
Definition vaultElementTypeInteger : Z := 3.
Definition vaultElementTypeUnsignedInteger : Z := 4.
Definition vaultElementTypeDouble : Z := 5.
Definition vaultElementTypeGUID : Z := 6.
Definition vaultElementTypeString : Z := 7.
Definition vaultElementTypeByteArray : Z := 8.
Definition vaultElementTypeTimeStamp : Z := 9.
Definition vaultElementTypeProtectedArray : Z := 10.
Definition vaultElementTypeAttribute : Z := 11.
Definition vaultElementTypeSid : Z := 12.
Definition vaultElementTypeLast : Z := 13.

(** [isWindows7]: major version in the low byte, minor in the next. *)
Definition isWindows7 (ver : Z) : bool :=
  (ver mod 256 =? 6) && (Z.shiftr ver 8 mod 256 =? 1).

Section Convert.

Variable arch : GoArch.

(** Fuel of the scan loop of [utf16PtrToString]. *)
Variable fuel : nat.

Let P : Z := ptrSize arch.

(** *** Field offsets, by Go's layout rules

    [sysVaultElement] is [{ID int32; _ int32; Type int32; _ int32}];
    [sysVaultElementString] appends [Data *uint16];
    [sysVaultElementByteArray] appends [Length uint32; Value uintptr]. *)
Definition elem_ID : Z := 0.
Definition elem_Type : Z := 8.
Definition elem_size : Z := 16.
Definition elemString_Data : Z := align_up elem_size P.
Definition elemByteArray_Length : Z := elem_size.
Definition elemByteArray_Value : Z := align_up (elemByteArray_Length + 4) P.

(** [sysVaultItem7]: [ID] (16 bytes), [Name], [Resource], [Identity],
    [Authenticator], [Filetime], [Flags], [PropertiesCount],
    [Properties]. *)
Definition item7_ID : Z := 0.
Definition item7_Name : Z := 16.
Definition item7_Resource : Z := item7_Name + P.
Definition item7_Identity : Z := item7_Resource + P.
Definition item7_Authenticator : Z := item7_Identity + P.
Definition item7_Filetime : Z := item7_Authenticator + P.
Definition item7_Flags : Z := item7_Filetime + 8.
Definition item7_PropertiesCount : Z := item7_Flags + 4.
Definition item7_Properties : Z := align_up (item7_PropertiesCount + 4) P.
Definition item7_size : Z := item7_Properties + P.

(** [sysVaultItem8]: as above, with [PackageSid] after
    [Authenticator]. *)
Definition item8_ID : Z := 0.
Definition item8_Name : Z := 16.
Definition item8_Resource : Z := item8_Name + P.
Definition item8_Identity : Z := item8_Resource + P.
Definition item8_Authenticator : Z := item8_Identity + P.
Definition item8_PackageSid : Z := item8_Authenticator + P.
Definition item8_Filetime : Z := item8_PackageSid + P.
Definition item8_Flags : Z := item8_Filetime + 8.
Definition item8_PropertiesCount : Z := item8_Flags + 4.
Definition item8_Properties : Z := align_up (item8_PropertiesCount + 4) P.
Definition item8_size : Z := item8_Properties + P.

(** *** [utf16PtrToString] *)

(** The loop [for len := 0; ; len++]: one 16-bit load per round at
    [uintptr(wstr) + uintptr(len)*2]; it ends at the first zero
    unit and gives [len]. *)
Fixpoint scan (n : nat) (wstr len : Z) : Rd Z :=
  match n with
  | O => rd_fail OutOfFuel
  | S n' =>
      u <- load_u16 (uintptr arch (wstr + uintptr arch (uintptr arch len * 2))) ;;
      if u =? 0 then rd_ret len
      else scan n' wstr (to_int arch (len + 1))
  end.

(** The units of the slice [{Data: wstr, Len: len, Cap: len}], which
    [utf16.Decode] ranges over. *)
Fixpoint load_units (n : nat) (p : Z) : Rd (list Z) :=
  match n with
  | O => rd_ret []
  | S n' =>
      u <- load_u16 p ;;
      us <- load_units n' (uintptr arch (p + 2)) ;;
      rd_ret (u :: us)
  end.

Definition utf16PtrToString (wstr : Z) : Rd string :=
  if negb (wstr =? 0) then
    len <- scan fuel wstr 0 ;;
    us <- load_units (Z.to_nat len) wstr ;;
    rd_ret (gostring_of_runes (Decode us))
  else rd_ret ""%string.

(** *** [goBytes]

    [make([]byte, len)] panics when [len] does not fit [int]; [copy]
    then reads [len] bytes from [src]. *)
Definition goBytes (src len : Z) : Rd (list byte) :=
  if src =? 0 then rd_ret []
  else if to_int arch len <? 0 then rd_fail Panic
  else load_bytes (Z.to_nat len) src.

(** *** [convertToVaultItemElement]

    The switch is on [elem.Type]; the fields after the header are
    read only in the two cases that cast [elem] to the wider
    records.  The function ends in [return nil]. *)
Definition convertToVaultItemElement (elem : Z) : Rd (option VaultItemElement) :=
  if negb (elem =? 0) then
    ty <- load_i32 (elem + elem_Type) ;;
    if ty =? vaultElementTypeString then
      id <- load_i32 (elem + elem_ID) ;;
      data <- load_ptr arch (elem + elemString_Data) ;;
      value <- utf16PtrToString data ;;
      rd_ret (Some (ElemString (VaultItemElementString.mk id value)))
    else if ty =? vaultElementTypeByteArray then
      id <- load_i32 (elem + elem_ID) ;;
      val <- load_ptr arch (elem + elemByteArray_Value) ;;
      len <- load_u32 (elem + elemByteArray_Length) ;;
      value <- goBytes val len ;;
      rd_ret (Some (ElemByteArray (VaultItemElementByteArray.mk id value)))
    else rd_ret None
  else rd_ret None.

(** *** [convertToVaultItem7] and [convertToVaultItem8] *)

Definition load_Filetime (p : Z) : Rd Filetime :=
  lo <- load_u32 p ;;
  hi <- load_u32 (p + 4) ;;
  rd_ret (mkFiletime lo hi).

Definition convertToVaultItem7 (item : Z) : Rd VaultItem :=
  id <- load_bytes 16 (item + item7_ID) ;;
  name_p <- load_ptr arch (item + item7_Name) ;;
  name <- utf16PtrToString name_p ;;
  res_p <- load_ptr arch (item + item7_Resource) ;;
  res <- convertToVaultItemElement res_p ;;
  idn_p <- load_ptr arch (item + item7_Identity) ;;
  idn <- convertToVaultItemElement idn_p ;;
  aut_p <- load_ptr arch (item + item7_Authenticator) ;;
  aut <- convertToVaultItemElement aut_p ;;
  ft <- load_Filetime (item + item7_Filetime) ;;
  rd_ret (mkVaultItem id name res idn aut (time_Unix 0 (Nanoseconds ft))).

Definition convertToVaultItem8 (item : Z) : Rd VaultItem :=
  id <- load_bytes 16 (item + item8_ID) ;;
  name_p <- load_ptr arch (item + item8_Name) ;;
  name <- utf16PtrToString name_p ;;
  res_p <- load_ptr arch (item + item8_Resource) ;;
  res <- convertToVaultItemElement res_p ;;
  idn_p <- load_ptr arch (item + item8_Identity) ;;
  idn <- convertToVaultItemElement idn_p ;;
  aut_p <- load_ptr arch (item + item8_Authenticator) ;;
  aut <- convertToVaultItemElement aut_p ;;
  ft <- load_Filetime (item + item8_Filetime) ;;
  rd_ret (mkVaultItem id name res idn aut (time_Unix 0 (Nanoseconds ft))).

End Convert.

(** ** Concrete memories

    A memory given by regions: a base address and the bytes from there
    on.  Used to run the converters on explicit inputs. *)

Fixpoint region_get (bs : list Z) (off : nat) : option byte :=
  match bs, off with
  | [], _ => None
  | b :: _, O => Some (byte_of_Z b)
  | _ :: bs', S off' => region_get bs' off'
  end.

Fixpoint mem_of_regions (rs : list (Z * list Z)) : memory :=
  fun p =>
    match rs with
    | [] => None
    | (base, bs) :: rs' =>
        if (base <=? p) && (p <? base + Z.of_nat (List.length bs))
        then region_get bs (Z.to_nat (p - base))
        else mem_of_regions rs' p
    end.

(** Little-endian bytes of a value, [n] of them. *)
Fixpoint le_bytes (n : nat) (v : Z) : list Z :=
  match n with
  | O => []
  | S n' => v mod 256 :: le_bytes n' (v / 256)
  end.

(** ** The native gateway ([syscall.go])

    The entry points of [vaultcli.dll] are given by an oracle over a
    native state [St]: each takes the arguments the Go code passes and
    gives the status [ret] together with what it writes through the
    output pointers.  The native state determines the native memory
    the converters read. *)

Record NativeAPI (St : Type) := mkNativeAPI {
  nat_memory : St -> memory;
  (** [windows.GetVersion()], read once when the package is loaded *)
  nat_GetVersion : Z;
  (** gives [ret], [count], [guids] *)
  nat_VaultEnumerateVaults : St -> (Z * Z * Z) * St;
  (** gives [ret], [handle] *)
  nat_VaultOpenVault : list byte -> St -> (Z * Z) * St;
  nat_VaultCloseVault : Z -> St -> Z * St;
  (** gives [ret], [info.Value] *)
  nat_VaultGetInformation : Z -> Z -> St -> (Z * Z) * St;
  (** gives [ret], [count], [items] *)
  nat_VaultEnumerateItems : Z -> St -> (Z * Z * Z) * St;
  (** handle, item id, resource, identity, package SID (Windows 8 form
      only); gives [ret], [item] *)
  nat_VaultGetItem : Z -> list byte -> Z -> Z -> option Z -> St -> (Z * Z) * St;
  nat_VaultFree : Z -> St -> St
}.
Arguments nat_memory {St}.
Arguments nat_GetVersion {St}.
Arguments nat_VaultEnumerateVaults {St}.
Arguments nat_VaultOpenVault {St}.
Arguments nat_VaultCloseVault {St}.
Arguments nat_VaultGetInformation {St}.
Arguments nat_VaultEnumerateItems {St}.
Arguments nat_VaultGetItem {St}.
Arguments nat_VaultFree {St}.

(** One call through a [LazyProc]. *)
Inductive event :=
| CallVaultEnumerateVaults
| CallVaultOpenVault (id : list byte)
| CallVaultCloseVault (handle : Z)
| CallVaultGetInformation (handle kind : Z)
| CallVaultEnumerateItems (handle : Z)
| CallVaultGetItem (handle : Z) (id : list byte) (resource identity : Z)
    (packageSid : option Z)
| CallVaultFree (ptr : Z).

Record world (St : Type) := mkWorld { native : St; trace : list event }.
Arguments mkWorld {St}.
Arguments native {St}.
Arguments trace {St}.

Definition Gw (St A : Type) : Type := world St -> outcome A * world St.

Definition gw_ret {St A} (a : A) : Gw St A := fun w => (Ok a, w).

Definition gw_bind {St A B} (c : Gw St A) (k : A -> Gw St B) : Gw St B :=
  fun w =>
    match c w with
    | (Ok a, w1) => k a w1
    | (Fault p, w1) => (Fault p, w1)
    | (Panic, w1) => (Panic, w1)
    | (OutOfFuel, w1) => (OutOfFuel, w1)
    | (Undefined, w1) => (Undefined, w1)
    end.

Definition gw_fail {St A} (o : outcome A) : Gw St A := fun w => (o, w).

Declare Scope gw_scope.
Delimit Scope gw_scope with gw.
Notation "x <- c ;; k" := (gw_bind c (fun x => k))
  (at level 61, c at next level, right associativity) : gw_scope.

(** A native call: the oracle's answer, and the call appended to the
    trace. *)
Definition call {St A} (ev : event) (f : St -> A * St) : Gw St A :=
  fun w => let (a, s) := f (native w) in (Ok a, mkWorld s (trace w ++ [ev])).

(** A fault at an address below [0x1000] is a nil dereference, which
    the Go run-time system turns into a panic; a fault elsewhere stops
    the process. *)
Definition nil_page (p : Z) : bool := (0 <=? p) && (p <? 0x1000).

(** [defer procVaultFree.Call(ptr)]: the call is made when the body
    returns and when it panics, a nil dereference included; any other
    fault and an endless loop in the body end the run before it. *)
Definition deferred {St A} (d : world St -> world St) (body : Gw St A) : Gw St A :=
  fun w =>
    match body w with
    | (Ok a, w1) => (Ok a, d w1)
    | (Panic, w1) => (Panic, d w1)
    | (Fault p, w1) => (Fault p, if nil_page p then d w1 else w1)
    | (OutOfFuel, w1) => (OutOfFuel, w1)
    | (Undefined, w1) => (Undefined, w1)
    end.

(** Native records, as Go copies them: [sysVaultItem7], [sysVaultItem8]. *)
Record sysVaultItem7 := mkItem7 {
  I7_ID : list byte;
  I7_Name : Z;
  I7_Resource : Z;
  I7_Identity : Z;
  I7_Authenticator : Z;
  I7_Filetime : Filetime;
  I7_Flags : Z;
  I7_PropertiesCount : Z;
  I7_Properties : Z
}.

Record sysVaultItem8 := mkItem8 {
  I8_ID : list byte;
  I8_Name : Z;
  I8_Resource : Z;
  I8_Identity : Z;
  I8_Authenticator : Z;
  I8_PackageSid : Z;
  I8_Filetime : Filetime;
  I8_Flags : Z;
  I8_PropertiesCount : Z;
  I8_Properties : Z
}.

(** The results of the listing's detail fetches that are kept: those
    with a nil error. *)
Definition fetched (outs : list (option VaultItem * option error)) : list VaultItem :=
  flat_map (fun o => match o with
                     | (Some item, None) => [item]
                     | _ => []
                     end) outs.

(** The pointers passed to [VaultFree] in a trace. *)
Definition frees (t : list event) : list Z :=
  flat_map (fun e => match e with CallVaultFree p => [p] | _ => [] end) t.

Section Gateway.

Variable arch : GoArch.
Variable fuel : nat.
Variable St : Type.
Variable api : NativeAPI St.

Local Open Scope gw_scope.

(** A converter run on the native memory of the moment. *)
Definition on_memory {A} (c : Rd A) : Gw St A :=
  fun w => (result (c (nat_memory api (native w))), w).

(** [procVaultFree.Call(ptr)] *)
Definition free (ptr : Z) (w : world St) : world St :=
  mkWorld (nat_VaultFree api ptr (native w)) (trace w ++ [CallVaultFree ptr]).

(** [useAPI7 = isWindows7()] *)
Definition useAPI7 : bool := isWindows7 (nat_GetVersion api).

(** The copy of the array element at [p] that [range] makes. *)
Definition load_sysVaultItem7 (p : Z) : Rd sysVaultItem7 :=
  (id <- load_bytes 16 (p + item7_ID) ;;
   name <- load_ptr arch (p + item7_Name) ;;
   res <- load_ptr arch (p + item7_Resource arch) ;;
   idn <- load_ptr arch (p + item7_Identity arch) ;;
   aut <- load_ptr arch (p + item7_Authenticator arch) ;;
   ft <- load_Filetime (p + item7_Filetime arch) ;;
   flags <- load_u32 (p + item7_Flags arch) ;;
   pc <- load_u32 (p + item7_PropertiesCount arch) ;;
   props <- load_ptr arch (p + item7_Properties arch) ;;
   rd_ret (mkItem7 id name res idn aut ft flags pc props))%rd.

Definition load_sysVaultItem8 (p : Z) : Rd sysVaultItem8 :=
  (id <- load_bytes 16 (p + item8_ID) ;;
   name <- load_ptr arch (p + item8_Name) ;;
   res <- load_ptr arch (p + item8_Resource arch) ;;
   idn <- load_ptr arch (p + item8_Identity arch) ;;
   aut <- load_ptr arch (p + item8_Authenticator arch) ;;
   sid <- load_ptr arch (p + item8_PackageSid arch) ;;
   ft <- load_Filetime (p + item8_Filetime arch) ;;
   flags <- load_u32 (p + item8_Flags arch) ;;
   pc <- load_u32 (p + item8_PropertiesCount arch) ;;
   props <- load_ptr arch (p + item8_Properties arch) ;;
   rd_ret (mkItem8 id name res idn aut sid ft flags pc props))%rd.

(** [sysVaultEnumerateVaults]: [make] and [copy] on slices of the
    same length [count] are one allocation of [16 * count] bytes
    followed by the copy, without a check of the length.  For a
    negative [count], and for one whose size in bytes does not fit
    [uintptr], the size wraps around: the allocation fails with a
    fatal error, or the slice is longer than its store; the model
    does not follow such a run.  Otherwise the [count] identifiers at
    [guids] are copied; [guids] is freed by a deferred call. *)
Fixpoint load_uuids (n : nat) (p : Z) : Rd (list (list byte)) :=
  match n with
  | O => rd_ret []
  | S n' =>
      (g <- load_bytes 16 p ;;
       gs <- load_uuids n' (uintptr arch (p + 16)) ;;
       rd_ret (g :: gs))%rd
  end.

Definition sysVaultEnumerateVaults : Gw St (list (list byte) * option error) :=
  r <- call CallVaultEnumerateVaults (nat_VaultEnumerateVaults api) ;;
  let '(ret, count, guids) := r in
  if negb (ret =? NO_ERROR) then gw_ret ([], Some (Errno ret))
  else
  deferred (free guids)
    (if (count <? 0) || (2 ^ ptrBits arch <=? 16 * count) then gw_fail Undefined
     else
       result <- on_memory (load_uuids (Z.to_nat count) guids) ;;
       gw_ret (result, None)).

Definition sysVaultOpenVault (id : list byte) : Gw St (Z * option error) :=
  r <- call (CallVaultOpenVault id) (nat_VaultOpenVault api id) ;;
  let '(ret, handle) := r in
  if negb (ret =? NO_ERROR) then gw_ret (0, Some (Errno ret))
  else gw_ret (handle, None).

Definition sysVaultCloseVault (handle : Z) : Gw St (option error) :=
  ret <- call (CallVaultCloseVault handle) (nat_VaultCloseVault api handle) ;;
  if negb (ret =? NO_ERROR) then gw_ret (Some (Errno ret))
  else gw_ret None.

Definition sysVaultGetInformationString (handle kind : Z)
  : Gw St (string * option error) :=
  r <- call (CallVaultGetInformation handle kind)
            (nat_VaultGetInformation api handle kind) ;;
  let '(ret, value) := r in
  if negb (ret =? NO_ERROR) then gw_ret (""%string, Some (Errno ret))
  else
    s <- on_memory (utf16PtrToString arch fuel value) ;;
    gw_ret (s, None).

(** [sysVaultGetItem7], [sysVaultGetItem8]: on success the record at
    [item] is converted, then freed. *)
Definition sysVaultGetItem7 (handle : Z) (descriptor : sysVaultItem7)
  : Gw St (option VaultItem * option error) :=
  r <- call (CallVaultGetItem handle (I7_ID descriptor)
               (I7_Resource descriptor) (I7_Identity descriptor) None)
            (nat_VaultGetItem api handle (I7_ID descriptor)
               (I7_Resource descriptor) (I7_Identity descriptor) None) ;;
  let '(ret, item) := r in
  if negb (ret =? NO_ERROR) then gw_ret (None, Some (Errno ret))
  else
    deferred (free item)
      (v <- on_memory (convertToVaultItem7 arch fuel item) ;;
       gw_ret (Some v, None)).

Definition sysVaultGetItem8 (handle : Z) (descriptor : sysVaultItem8)
  : Gw St (option VaultItem * option error) :=
  r <- call (CallVaultGetItem handle (I8_ID descriptor)
               (I8_Resource descriptor) (I8_Identity descriptor)
               (Some (I8_PackageSid descriptor)))
            (nat_VaultGetItem api handle (I8_ID descriptor)
               (I8_Resource descriptor) (I8_Identity descriptor)
               (Some (I8_PackageSid descriptor))) ;;
  let '(ret, item) := r in
  if negb (ret =? NO_ERROR) then gw_ret (None, Some (Errno ret))
  else
    deferred (free item)
      (v <- on_memory (convertToVaultItem8 arch fuel item) ;;
       gw_ret (Some v, None)).

(** The two loops of [sysVaultEnumerateItems] differ in the record
    type only: [size] is the size of an array element, [load] its
    copy and [get] the detail fetch.  A nil error with a nil item
    would be a nil dereference. *)
Fixpoint fetch_loop {D} (size : Z) (load : Z -> Rd D)
    (get : D -> Gw St (option VaultItem * option error))
    (items : Z) (n : nat) (i : Z) (result : list VaultItem)
  : Gw St (list VaultItem) :=
  match n with
  | O => gw_ret result
  | S n' =>
      descriptor <- on_memory (load (uintptr arch (items + i * size))) ;;
      r <- get descriptor ;;
      match r with
      | (Some item, None) =>
          fetch_loop size load get items n' (i + 1) (result ++ [item])
      | (None, None) => gw_fail Panic
      | (_, Some _) =>
          fetch_loop size load get items n' (i + 1) result
      end
  end.

(** [sysVaultEnumerateItems]; a slice of negative length is ranged
    over zero times. *)
Definition sysVaultEnumerateItems (handle : Z)
  : Gw St (list VaultItem * option error) :=
  r <- call (CallVaultEnumerateItems handle) (nat_VaultEnumerateItems api handle) ;;
  let '(ret, count, items) := r in
  if negb (ret =? NO_ERROR) then gw_ret ([], Some (Errno ret))
  else
    deferred (free items)
      (result <-
         (if useAPI7
          then fetch_loop (item7_size arch) load_sysVaultItem7
                 (sysVaultGetItem7 handle) items (Z.to_nat count) 0 []
          else fetch_loop (item8_size arch) load_sysVaultItem8
                 (sysVaultGetItem8 handle) items (Z.to_nat count) 0 []) ;;
       gw_ret (result, None)).

(** ** The session functions ([winvault.go]) *)

Definition Open (vaultID : list byte) : Gw St (option Vault * option error) :=
  r <- sysVaultOpenVault vaultID ;;
  let '(handle, err) := r in
  match err with
  | Some e => gw_ret (None, Some e)
  | None =>
      r <- sysVaultGetInformationString handle vaultInformationKindName ;;
      let '(name, err) := r in
      match err with
      | Some e => gw_ret (None, Some e)
      | None =>
          r <- (if useAPI7
                then sysVaultGetInformationString handle vaultInformationKindPath7
                else sysVaultGetInformationString handle vaultInformationKindPath8) ;;
          let '(path, err) := r in
          match err with
          | Some e => gw_ret (None, Some e)
          | None => gw_ret (Some (mkVault vaultID name path handle), None)
          end
      end
  end.

Definition List_ : Gw St (list (list byte) * option error) :=
  sysVaultEnumerateVaults.

(** [Close] has no result: what its caller has afterwards is the
    vault it was called on, with the handle overwritten. *)
Definition Close (t : Vault) : Gw St Vault :=
  _ <- sysVaultCloseVault (V_handle t) ;;
  gw_ret (mkVault (V_ID t) (V_Name t) (V_Path t) (InvalidHandle arch)).

Definition Items (t : Vault) : Gw St (list VaultItem * option error) :=
  sysVaultEnumerateItems (V_handle t).

(** *** The detail fetches of a listing, one result per descriptor

    The same fetches as [fetch_loop] makes, with every result kept,
    failed or not. *)
Fixpoint fetch_outcomes {D} (size : Z) (load : Z -> Rd D)
    (get : D -> Gw St (option VaultItem * option error))
    (items : Z) (n : nat) (i : Z)
  : Gw St (list (option VaultItem * option error)) :=
  match n with
  | O => gw_ret []
  | S n' =>
      descriptor <- on_memory (load (uintptr arch (items + i * size))) ;;
      r <- get descriptor ;;
      rs <- fetch_outcomes size load get items n' (i + 1) ;;
      gw_ret (r :: rs)
  end.

Definition item_outcomes (handle items count : Z)
  : Gw St (list (option VaultItem * option error)) :=
  if useAPI7
  then fetch_outcomes (item7_size arch) load_sysVaultItem7
         (sysVaultGetItem7 handle) items (Z.to_nat count) 0
  else fetch_outcomes (item8_size arch) load_sysVaultItem8
         (sysVaultGetItem8 handle) items (Z.to_nat count) 0.

End Gateway.

(** What a detail fetch that returns adds to the trace: the call, and
    for a fetched item the one free of its record. *)
Definition fetch_events {St} (get_w : outcome (option VaultItem * option error) * world St)
    (w : world St) : Prop :=
  forall r w', get_w = (Ok r, w') ->
    exists ev, trace w' = trace w ++ ev /\
      ((exists v p, r = (Some v, None) /\ frees ev = [p]) \/
       (exists e, r = (None, Some e) /\ frees ev = [])).

(** A pointer that the native side gives as the detail record of a
    successful [VaultGetItem], for some arguments in some state. *)
Definition native_detail_answer {St} (api : NativeAPI St) (p : Z) : Prop :=
  exists (h : Z) (id : list byte) (res idn : Z) (sid : option Z) (s s' : St),
    nat_VaultGetItem api h id res idn sid s = ((NO_ERROR, p), s').

(** A detail fetch that returns frees nothing but detail records that
    the native side has given. *)
Definition fetch_frees_answers {St} (api : NativeAPI St)
    (get_w : outcome (option VaultItem * option error) * world St)
    (w : world St) : Prop :=
  forall r w', get_w = (Ok r, w') ->
    exists ev : list event,
      trace w' = trace w ++ ev /\
      Forall (native_detail_answer api) (frees ev).

(** ** The logical fields of an item record

    What the two record layouts have in common: the fields that
    [convertToVaultItem7] and [convertToVaultItem8] use. *)

Record ItemFields := mkItemFields {
  F_ID : list byte;
  F_Name : Z;
  F_Resource : Z;
  F_Identity : Z;
  F_Authenticator : Z;
  F_Filetime : Filetime
}.

(** The logical fields of the Windows 7 record at [item]. *)
Definition fields7 (arch : GoArch) (item : Z) : Rd ItemFields :=
  id <- load_bytes 16 (item + item7_ID) ;;
  name <- load_ptr arch (item + item7_Name) ;;
  res <- load_ptr arch (item + item7_Resource arch) ;;
  idn <- load_ptr arch (item + item7_Identity arch) ;;
  aut <- load_ptr arch (item + item7_Authenticator arch) ;;
  ft <- load_Filetime (item + item7_Filetime arch) ;;
  rd_ret (mkItemFields id name res idn aut ft).

(** The logical fields of the Windows 8 record at [item]. *)
Definition fields8 (arch : GoArch) (item : Z) : Rd ItemFields :=
  id <- load_bytes 16 (item + item8_ID) ;;
  name <- load_ptr arch (item + item8_Name) ;;
  res <- load_ptr arch (item + item8_Resource arch) ;;
  idn <- load_ptr arch (item + item8_Identity arch) ;;
  aut <- load_ptr arch (item + item8_Authenticator arch) ;;
  ft <- load_Filetime (item + item8_Filetime arch) ;;
  rd_ret (mkItemFields id name res idn aut ft).

(** The item that given logical fields stand for. *)
Definition itemOfFields (arch : GoArch) (fuel : nat) (f : ItemFields) : Rd VaultItem :=
  name <- utf16PtrToString arch fuel (F_Name f) ;;
  res <- convertToVaultItemElement arch fuel (F_Resource f) ;;
  idn <- convertToVaultItemElement arch fuel (F_Identity f) ;;
  aut <- convertToVaultItemElement arch fuel (F_Authenticator f) ;;
  rd_ret (mkVaultItem (F_ID f) name res idn aut
            (time_Unix 0 (Nanoseconds (F_Filetime f)))).

(** ** Statements of the specification that the code is compared with *)

(** Windows status codes ([winerror.h]). *)
Definition ERROR_ACCESS_DENIED : Z := 5.
Definition ERROR_NOT_FOUND : Z := 1168.

(** "The decoder returns a variant for every other type tag": a
    non-nil element is returned whenever the tag is neither the
    string nor the byte-array tag. *)
Definition other_tags_give_a_variant : Prop :=
  forall (arch : GoArch) (fuel : nat) (m : memory) (elem tag : Z),
    elem <> 0 ->
    peek m 4 (elem + elem_Type) = Some tag ->
    to_int32 tag <> vaultElementTypeString ->
    to_int32 tag <> vaultElementTypeByteArray ->
    exists e : VaultItemElement,
      result (convertToVaultItemElement arch fuel elem m) = Ok (Some e).

(** "A failure of the native close call surfaces to the caller of
    Close": from what [Close] gives back, its caller can tell the
    status of the native call. *)
Definition Close_surfaces_status : Prop :=
  exists observe : outcome Vault -> Z,
    forall (arch : GoArch) (St : Type) (api : NativeAPI St)
           (t : Vault) (w : world St),
      observe (fst (Close arch St api t w))
      = fst (nat_VaultCloseVault api (V_handle t) (native w)).

(** *** The kinds that [syscall.Errno] knows

    On Windows the method [Is] of [syscall.Errno] answers for the
    targets [ErrPermission], [ErrExist], [ErrNotExist] and
    [ErrUnsupported]; that is what [errors.Is], [os.IsPermission] and
    [os.IsNotExist] come down to for an [Errno].  It compares the
    status with a few Windows codes and with values that package
    [syscall] invents, from [APPLICATION_ERROR] on, for the POSIX
    names; the invented values are a parameter here. *)
Definition ERROR_FILE_NOT_FOUND : Z := 2.
Definition ERROR_PATH_NOT_FOUND : Z := 3.
Definition ERROR_NOT_SUPPORTED : Z := 50.
Definition ERROR_BAD_NETPATH : Z := 53.
Definition ERROR_FILE_EXISTS : Z := 80.
Definition ERROR_CALL_NOT_IMPLEMENTED : Z := 120.
Definition ERROR_DIR_NOT_EMPTY : Z := 145.
Definition ERROR_ALREADY_EXISTS : Z := 183.
Definition APPLICATION_ERROR : Z := 2 ^ 29.

Record InventedErrno := mkInventedErrno {
  EACCES : Z;
  EPERM : Z;
  EEXIST : Z;
  ENOTEMPTY : Z;
  ENOENT : Z;
  ENOSYS : Z;
  ENOTSUP : Z;
  EOPNOTSUPP : Z;
  EWINDOWS : Z
}.

Definition invented_above (inv : InventedErrno) : Prop :=
  APPLICATION_ERROR <= EACCES inv /\ APPLICATION_ERROR <= EPERM inv /\
  APPLICATION_ERROR <= EEXIST inv /\ APPLICATION_ERROR <= ENOTEMPTY inv /\
  APPLICATION_ERROR <= ENOENT inv /\ APPLICATION_ERROR <= ENOSYS inv /\
  APPLICATION_ERROR <= ENOTSUP inv /\ APPLICATION_ERROR <= EOPNOTSUPP inv /\
  APPLICATION_ERROR <= EWINDOWS inv.

Inductive ErrKind := ErrPermission | ErrExist | ErrNotExist | ErrUnsupported.

(** [func (e Errno) Is(target error) bool] *)
Definition Errno_Is (inv : InventedErrno) (e : Z) (target : ErrKind) : bool :=
  match target with
  | ErrPermission =>
      (e =? ERROR_ACCESS_DENIED) || (e =? EACCES inv) || (e =? EPERM inv)
  | ErrExist =>
      (e =? ERROR_ALREADY_EXISTS) || (e =? ERROR_DIR_NOT_EMPTY)
      || (e =? ERROR_FILE_EXISTS) || (e =? EEXIST inv) || (e =? ENOTEMPTY inv)
  | ErrNotExist =>
      (e =? ERROR_FILE_NOT_FOUND) || (e =? ERROR_BAD_NETPATH)
      || (e =? ERROR_PATH_NOT_FOUND) || (e =? ENOENT inv)
  | ErrUnsupported =>
      (e =? ERROR_NOT_SUPPORTED) || (e =? ERROR_CALL_NOT_IMPLEMENTED)
      || (e =? ENOSYS inv) || (e =? ENOTSUP inv) || (e =? EOPNOTSUPP inv)
      || (e =? EWINDOWS inv)
  end.

(** [errors.Is(err, target)] for an error of the package and one of
    the four targets: the error is no such target itself and wraps
    nothing, so its method [Is] decides. *)
Definition errors_Is (inv : InventedErrno) (err : error) (target : ErrKind) : bool :=
  match err with
  | Errno e => Errno_Is inv e target
  end.

(** "For the not-found and the access-denied code the returned error
    is a named kind that callers branch on without inspecting the raw
    code": there are a kind for not-found and a kind for access-denied
    as which [errors.Is] recognises the error that [sysVaultOpenVault]
    returns for the status [ERROR_NOT_FOUND] and for the status
    [ERROR_ACCESS_DENIED]. *)
Definition both_statuses_have_a_kind : Prop :=
  exists kNotFound kAccessDenied : ErrKind,
    forall (inv : InventedErrno), invented_above inv ->
    forall (St : Type) (api : NativeAPI St) (id : list byte) (w : world St)
           (ret : Z),
      ret = fst (fst (nat_VaultOpenVault api id (native w))) ->
      (ret = ERROR_NOT_FOUND ->
       exists (h : Z) (e : error),
         fst (sysVaultOpenVault St api id w) = Ok (h, Some e) /\
         errors_Is inv e kNotFound = true) /\
      (ret = ERROR_ACCESS_DENIED ->
       exists (h : Z) (e : error),
         fst (sysVaultOpenVault St api id w) = Ok (h, Some e) /\
         errors_Is inv e kAccessDenied = true).

(** Some invented values, for explicit runs. *)
Definition demo_invented : InventedErrno :=
  mkInventedErrno (APPLICATION_ERROR + 1) (APPLICATION_ERROR + 2)
    (APPLICATION_ERROR + 3) (APPLICATION_ERROR + 4) (APPLICATION_ERROR + 5)
    (APPLICATION_ERROR + 6) (APPLICATION_ERROR + 7) (APPLICATION_ERROR + 8)
    (APPLICATION_ERROR + 9).

(** ** Explicit inputs *)

Definition codes (s : string) : list Z := map Z_of_byte (list_byte_of_string s).

(** A zero-terminated UTF-16 string, in bytes. *)
Definition wide (units : list Z) : list Z :=
  flat_map (le_bytes 2) units ++ [0; 0].

(** The bytes of a string element and of a byte-array element on
    64-bit Windows. *)
Definition elemString_bytes (id data : Z) : list Z :=
  le_bytes 4 id ++ le_bytes 4 0 ++ le_bytes 4 vaultElementTypeString
  ++ le_bytes 4 0 ++ le_bytes 8 data.

Definition elemByteArray_bytes (id len val : Z) : list Z :=
  le_bytes 4 id ++ le_bytes 4 0 ++ le_bytes 4 vaultElementTypeByteArray
  ++ le_bytes 4 0 ++ le_bytes 4 len ++ le_bytes 4 0 ++ le_bytes 8 val.

(** An element of type [vaultElementTypeBoolean], header only. *)
Definition elemBoolean_bytes (id : Z) : list Z :=
  le_bytes 4 id ++ le_bytes 4 0 ++ le_bytes 4 vaultElementTypeBoolean
  ++ le_bytes 4 0.

Definition uuid_bytes (b : Z) : list Z := b :: repeat 0 15%nat.

(** The bytes of a [sysVaultItem7] and of a [sysVaultItem8] on 64-bit
    Windows. *)
Definition item7_bytes (id : list Z) (name res idn aut ft : Z) : list Z :=
  id ++ le_bytes 8 name ++ le_bytes 8 res ++ le_bytes 8 idn ++ le_bytes 8 aut
  ++ le_bytes 8 ft ++ le_bytes 4 0 ++ le_bytes 4 0 ++ le_bytes 8 0.

Definition item8_bytes (id : list Z) (name res idn aut sid ft : Z) : list Z :=
  id ++ le_bytes 8 name ++ le_bytes 8 res ++ le_bytes 8 idn ++ le_bytes 8 aut
  ++ le_bytes 8 sid
  ++ le_bytes 8 ft ++ le_bytes 4 0 ++ le_bytes 4 0 ++ le_bytes 8 0.

(** 2017-01-01 00:00:00 UTC as a file time. *)
Definition demo_filetime : Z := 131277024000000000.

(** A native memory: an array of three descriptors at [0x10000], the
    detail records of the first and the third at [0x20000] and
    [0x20100], a Windows 7 record with the fields of the first at
    [0x20200], and the elements and strings they point to. *)
Definition demo_memory : memory :=
  mem_of_regions
    [ (0x10000,
       item8_bytes (uuid_bytes 1) 0 0x31000 0x31100 0 0 0
       ++ item8_bytes (uuid_bytes 2) 0 0x33000 0x33100 0 0 0
       ++ item8_bytes (uuid_bytes 3) 0 0x32000 0x32100 0 0 0);
      (0x20000,
       item8_bytes (uuid_bytes 1) 0x30000 0x31000 0x31100 0x31200 0 demo_filetime);
      (0x20100,
       item8_bytes (uuid_bytes 3) 0x30000 0x32000 0x32100 0x32200 0 demo_filetime);
      (0x20200,
       item7_bytes (uuid_bytes 1) 0x30000 0x31000 0x31100 0x31200 demo_filetime);
      (0x30000, wide (codes "Internet Explorer"));
      (0x31000, elemString_bytes 1 0x31040);
      (0x31040, wide (codes "example.com"));
      (0x31100, elemString_bytes 2 0x31140);
      (0x31140, wide (codes "alice"));
      (0x31200, elemString_bytes 3 0x31240);
      (0x31240, wide (codes "s3cr3t"));
      (0x32000, elemString_bytes 1 0x32040);
      (0x32040, wide (codes "example.org"));
      (0x32100, elemString_bytes 2 0x32140);
      (0x32140, wide (codes "bob"));
      (0x32200, elemByteArray_bytes 3 0 0x32240);
      (0x33000, elemBoolean_bytes 1);
      (0x33100, elemString_bytes 2 0x32140);
      (0x40000, wide (codes "ab")) ].

(** A native side over that memory, on Windows 10: the listing gives
    the three descriptors; the detail fetch of the second fails with
    [ERROR_NOT_FOUND]. *)
Definition demo_api : NativeAPI unit :=
  {| nat_memory := fun _ => demo_memory;
     nat_GetVersion := 10;
     nat_VaultEnumerateVaults := fun s => ((0, 0, 0), s);
     nat_VaultOpenVault := fun _ s => ((0, 0x77), s);
     nat_VaultCloseVault := fun _ s => (0, s);
     nat_VaultGetInformation := fun _ _ s => ((0, 0x30000), s);
     nat_VaultEnumerateItems := fun _ s => ((0, 3, 0x10000), s);
     nat_VaultGetItem := fun _ id _ _ _ s =>
       match id with
       | b :: _ =>
           if Z_of_byte b =? 1 then ((0, 0x20000), s)
           else if Z_of_byte b =? 3 then ((0, 0x20100), s)
           else ((ERROR_NOT_FOUND, 0), s)
       | [] => ((ERROR_NOT_FOUND, 0), s)
       end;
     nat_VaultFree := fun _ s => s |}.

(** A native side every call of which gives the status [ret]. *)
Definition status_api (ret : Z) : NativeAPI unit :=
  {| nat_memory := fun _ _ => None;
     nat_GetVersion := 10;
     nat_VaultEnumerateVaults := fun s => ((ret, 0, 0), s);
     nat_VaultOpenVault := fun _ s => ((ret, 0), s);
     nat_VaultCloseVault := fun _ s => (ret, s);
     nat_VaultGetInformation := fun _ _ s => ((ret, 0), s);
     nat_VaultEnumerateItems := fun _ s => ((ret, 0, 0), s);
     nat_VaultGetItem := fun _ _ _ _ _ s => ((ret, 0), s);
     nat_VaultFree := fun _ s => s |}.

Definition demo_world : world unit := mkWorld tt [].

Definition demo_vault : Vault :=
  mkVault (map byte_of_Z (uuid_bytes 0x42)) "Web Credentials" "C:\Vault" 0x77.

(** What the three detail fetches of the listing give. *)
Definition demo_outcomes : list (option VaultItem * option error) :=
  Eval vm_compute in
    match fst (item_outcomes Arch64 20 unit demo_api 0x77 0x10000 3
                 (mkWorld tt [CallVaultEnumerateItems 0x77])) with
    | Ok outs => outs
    | _ => []
    end.


(** A native memory for a 32-bit target: a Windows 7 record at
    [0x7000] whose authenticator, at [0x7100], is a byte-array element
    with a [Length] of [2^31]. *)
Definition oversized_memory : memory :=
  mem_of_regions
    [ (0x7000,
       uuid_bytes 7 ++ le_bytes 4 0 ++ le_bytes 4 0 ++ le_bytes 4 0
       ++ le_bytes 4 0x7100 ++ le_bytes 8 demo_filetime
       ++ le_bytes 4 0 ++ le_bytes 4 0 ++ le_bytes 4 0);
      (0x7100,
       le_bytes 4 3 ++ le_bytes 4 0 ++ le_bytes 4 vaultElementTypeByteArray
       ++ le_bytes 4 0 ++ le_bytes 4 (2 ^ 31) ++ le_bytes 4 0x7200) ].

(** A native side on Windows 7 over that memory; every detail fetch
    gives the record at [0x7000]. *)
Definition oversized_api : NativeAPI unit :=
  {| nat_memory := fun _ => oversized_memory;
     nat_GetVersion := 6 + 256 * 1 + 65536 * 7601;
     nat_VaultEnumerateVaults := fun s => ((0, 0, 0), s);
     nat_VaultOpenVault := fun _ s => ((0, 0x77), s);
     nat_VaultCloseVault := fun _ s => (0, s);
     nat_VaultGetInformation := fun _ _ s => ((0, 0), s);
     nat_VaultEnumerateItems := fun _ s => ((0, 0, 0), s);
     nat_VaultGetItem := fun _ _ _ _ _ s => ((0, 0x7000), s);
     nat_VaultFree := fun _ s => s |}.

(** A native side that lists two vaults, whose identifiers lie at
    [0x50000], and that refuses the handle [InvalidHandle]. *)
Definition vaults_memory : memory :=
  mem_of_regions
    [ (0x50000, uuid_bytes 0x42 ++ uuid_bytes 0x4b);
      (0x30000, wide (codes "Web Credentials"));
      (0x30100, wide (codes "C:/Vault")) ].

Definition vaults_api : NativeAPI unit :=
  {| nat_memory := fun _ => vaults_memory;
     nat_GetVersion := 10;
     nat_VaultEnumerateVaults := fun s => ((0, 2, 0x50000), s);
     nat_VaultOpenVault := fun _ s => ((0, 0x77), s);
     nat_VaultCloseVault := fun h s =>
       (if h =? InvalidHandle Arch64 then 6 else 0, s);
     nat_VaultGetInformation := fun _ kind s =>
       if kind =? vaultInformationKindName then ((0, 0x30000), s)
       else if kind =? vaultInformationKindPath8 then ((0, 0x30100), s)
       else ((87, 0), s);
     nat_VaultEnumerateItems := fun h s =>
       if h =? InvalidHandle Arch64 then ((6, 0, 0), s) else ((0, 0, 0), s);
     nat_VaultGetItem := fun _ _ _ _ _ s => ((ERROR_NOT_FOUND, 0), s);
     nat_VaultFree := fun _ s => s |}.

(** * Properties of the converters *)

(** ** Running the reader monad *)

Lemma bind_ok {A B} (c : Rd A) (k : A -> Rd B) (m : memory) a l :
  c m = (Ok a, l) ->
  rd_bind c k m = (fst (k a m), l ++ snd (k a m)).
Proof.
  intros E. unfold rd_bind. rewrite E. destruct (k a m); reflexivity.
Qed.

Lemma result_bind {A B} (c : Rd A) (k : A -> Rd B) (m : memory) :
  result (rd_bind c k m) =
  match result (c m) with
  | Ok a => result (k a m)
  | Fault p => Fault p
  | Panic => Panic
  | OutOfFuel => OutOfFuel
  | Undefined => Undefined
  end.
Proof.
  unfold result, rd_bind.
  destruct (c m) as [[a | p | | | ] l]; simpl; try reflexivity.
  destruct (k a m); reflexivity.
Qed.

Lemma result_bind_ok {A B} (c : Rd A) (k : A -> Rd B) (m : memory) a l :
  c m = (Ok a, l) -> result (rd_bind c k m) = result (k a m).
Proof. intros E. rewrite result_bind, E. reflexivity. Qed.

Lemma load_ok n p m v :
  peek m n p = Some v -> load n p m = (Ok v, [(p, Z.of_nat n)]).
Proof. intros E. unfold load. rewrite E. reflexivity. Qed.

Lemma load_i32_ok p m v :
  peek m 4 p = Some v -> load_i32 p m = (Ok (to_int32 v), [(p, 4)]).
Proof.
  intros E. unfold load_i32.
  rewrite (bind_ok _ _ _ _ _ (load_ok 4 p m v E)). reflexivity.
Qed.

Lemma load_ptr_ok a p m v :
  peek m (Z.to_nat (ptrSize a)) p = Some v ->
  load_ptr a p m = (Ok v, [(p, ptrSize a)]).
Proof.
  intros E. unfold load_ptr. rewrite (load_ok _ _ _ _ E).
  destruct a; reflexivity.
Qed.

Lemma uintptr_small a z :
  0 <= z < 2 ^ ptrBits a -> uintptr a z = z.
Proof. intros H. unfold uintptr. apply Z.mod_small. exact H. Qed.

Lemma to_int_small a z :
  0 <= z < 2 ^ (ptrBits a - 1) -> to_int a z = z.
Proof.
  intros H. unfold to_int.
  assert (E : 2 ^ ptrBits a = 2 * 2 ^ (ptrBits a - 1)).
  { destruct a; reflexivity. }
  rewrite Z.mod_small; lia.
Qed.

(** The branch of a pointer test [p != nil] for a non-null pointer. *)
Ltac take_nonnull H :=
  apply Z.eqb_neq in H; rewrite H; change (negb false) with true; cbv iota.

(** ** Null pointers *)

(** C7: for a null pointer, [utf16PtrToString] gives the empty string
    and [goBytes] the empty byte sequence (whatever the length
    argument); neither fails, and neither loads from memory. *)
Theorem null_pointer_gives_empty :
  forall (arch : GoArch) (fuel : nat) (m : memory) (len : Z),
    utf16PtrToString arch fuel 0 m = (Ok ""%string, []) /\
    goBytes arch 0 len m = (Ok [], []).
Proof.
  intros arch fuel m len. split; reflexivity.
Qed.

(** ** The accessors of the two element types *)

Lemma bytes_of_gostring_of_bytes (b : list byte) :
  bytes_of_gostring (gostring_of_bytes b) = b.
Proof. apply list_byte_of_string_of_list_byte. Qed.

Lemma gostring_of_bytes_of_gostring (s : string) :
  gostring_of_bytes (bytes_of_gostring s) = s.
Proof. apply string_of_list_byte_of_string. Qed.

(** C10: both accessors are defined on both element types and agree
    with each other: [AsByteArray] is the byte conversion of what
    [AsString] returns, and [AsString] is the string conversion of
    what [AsByteArray] returns, for a string element and for a
    byte-array element alike. *)
Theorem accessors_agree :
  forall e : VaultItemElement,
    AsByteArray e = bytes_of_gostring (AsString e) /\
    AsString e = gostring_of_bytes (AsByteArray e).
Proof.
  intros [s | b]; simpl.
  - unfold VaultItemElementString.AsByteArray, VaultItemElementString.AsString.
    split; [reflexivity | now rewrite gostring_of_bytes_of_gostring].
  - unfold VaultItemElementByteArray.AsByteArray, VaultItemElementByteArray.AsString.
    split; [now rewrite bytes_of_gostring_of_bytes | reflexivity].
Qed.

(** ** Elements *)

(** C1 (as amended): for a non-null element whose type tag is neither
    [vaultElementTypeString] nor [vaultElementTypeByteArray], the
    decoder returns nil, the absent element (no variant for unsupported
    types exists); it does not fail, and its only load is the [Type]
    field of the header, so no field after the header is read. *)
Theorem other_tag_gives_nil :
  forall (arch : GoArch) (fuel : nat) (m : memory) (elem tag : Z),
    elem <> 0 ->
    peek m 4 (elem + elem_Type) = Some tag ->
    to_int32 tag <> vaultElementTypeString ->
    to_int32 tag <> vaultElementTypeByteArray ->
    convertToVaultItemElement arch fuel elem m
    = (Ok None, [(elem + elem_Type, 4)]).
Proof.
  intros arch fuel m elem tag Hnz Htag Hs Hb.
  unfold convertToVaultItemElement.
  take_nonnull Hnz.
  rewrite (bind_ok _ _ _ _ _ (load_i32_ok _ _ _ Htag)).
  apply Z.eqb_neq in Hs. apply Z.eqb_neq in Hb.
  rewrite Hs, Hb. reflexivity.
Qed.

(** C9: a non-null byte-array element whose [Length] field is 0 is
    decoded to a byte-array element holding the empty sequence, not to
    nil, whatever its [Value] pointer is. *)
Theorem zero_length_gives_empty_bytes :
  forall (arch : GoArch) (fuel : nat) (m : memory) (elem id val : Z),
    elem <> 0 ->
    peek m 4 (elem + elem_Type) = Some vaultElementTypeByteArray ->
    peek m 4 (elem + elem_ID) = Some id ->
    peek m (Z.to_nat (ptrSize arch)) (elem + elemByteArray_Value arch) = Some val ->
    peek m 4 (elem + elemByteArray_Length) = Some 0 ->
    result (convertToVaultItemElement arch fuel elem m)
    = Ok (Some (ElemByteArray (VaultItemElementByteArray.mk (to_int32 id) []))).
Proof.
  intros arch fuel m elem id val Hnz Hty Hid Hval Hlen.
  unfold convertToVaultItemElement.
  take_nonnull Hnz.
  rewrite (result_bind_ok _ _ _ _ _ (load_i32_ok _ _ _ Hty)).
  replace (to_int32 vaultElementTypeByteArray) with vaultElementTypeByteArray
    by reflexivity.
  replace (vaultElementTypeByteArray =? vaultElementTypeString) with false
    by reflexivity.
  rewrite Z.eqb_refl.
  rewrite (result_bind_ok _ _ _ _ _ (load_i32_ok _ _ _ Hid)).
  rewrite (result_bind_ok _ _ _ _ _ (load_ptr_ok _ _ _ _ Hval)).
  rewrite (result_bind_ok _ _ _ _ _ (load_ok 4 _ _ _ Hlen)).
  rewrite result_bind.
  assert (G : result (goBytes arch val 0 m) = Ok []).
  { unfold goBytes. destruct (val =? 0); [reflexivity|].
    rewrite to_int_small by (destruct arch; cbv; split; congruence).
    reflexivity. }
  rewrite G. reflexivity.
Qed.

(** ** The scan of [utf16PtrToString] *)

Lemma scan_address a p k :
  0 <= k < 2 ^ 16 -> 0 <= p -> p + 2 * k + 2 <= 2 ^ ptrBits a ->
  uintptr a (p + uintptr a (uintptr a k * 2)) = p + 2 * k.
Proof.
  intros Hk Hp Hend.
  assert (Hbig : 2 ^ 17 <= 2 ^ ptrBits a) by (destruct a; cbv; congruence).
  change (2 ^ 16) with 65536 in Hk. change (2 ^ 17) with 131072 in Hbig.
  rewrite (uintptr_small a k) by lia.
  rewrite (uintptr_small a (k * 2)) by lia.
  rewrite uintptr_small by lia. lia.
Qed.

Lemma scan_ab a f m p :
  0 < p -> p + 6 <= 2 ^ ptrBits a ->
  peek m 2 p = Some 0x61 ->
  peek m 2 (p + 2) = Some 0x62 ->
  peek m 2 (p + 4) = Some 0 ->
  scan a (S (S (S f))) p 0 m = (Ok 2, [(p, 2); (p + 2, 2); (p + 4, 2)]).
Proof.
  intros Hp Hend H0 H1 H2.
  assert (I1 : to_int a (0 + 1) = 1) by (destruct a; reflexivity).
  assert (I2 : to_int a (1 + 1) = 2) by (destruct a; reflexivity).
  cbn [scan]. rewrite I1, I2.
  rewrite (scan_address a p 0), (scan_address a p 1), (scan_address a p 2)
    by (try change (2 ^ 16) with 65536; lia).
  replace (p + 2 * 0) with p by lia.
  replace (p + 2 * 1) with (p + 2) by lia.
  replace (p + 2 * 2) with (p + 4) by lia.
  unfold load_u16.
  rewrite (bind_ok _ _ _ _ _ (load_ok 2 _ _ _ H0)).
  replace (97 =? 0) with false by reflexivity. cbv iota.
  rewrite (bind_ok _ _ _ _ _ (load_ok 2 _ _ _ H1)).
  replace (98 =? 0) with false by reflexivity. cbv iota.
  rewrite (bind_ok _ _ _ _ _ (load_ok 2 _ _ _ H2)).
  rewrite Z.eqb_refl. reflexivity.
Qed.

Lemma load_units_ab a m p :
  0 < p -> p + 6 <= 2 ^ ptrBits a ->
  peek m 2 p = Some 0x61 ->
  peek m 2 (p + 2) = Some 0x62 ->
  load_units a 2 p m = (Ok [0x61; 0x62], [(p, 2); (p + 2, 2)]).
Proof.
  intros Hp Hend H0 H1.
  assert (L1 : load_units a 1 (p + 2) m = (Ok [0x62], [(p + 2, 2)])).
  { cbn [load_units]. unfold load_u16.
    rewrite (bind_ok _ _ _ _ _ (load_ok 2 _ _ _ H1)). reflexivity. }
  change (load_units a 2 p)
    with (u <- load_u16 p ;;
          us <- load_units a 1 (uintptr a (p + 2)) ;;
          rd_ret (u :: us)).
  rewrite (uintptr_small a (p + 2)) by lia.
  unfold load_u16.
  rewrite (bind_ok _ _ _ _ _ (load_ok 2 _ _ _ H0)).
  rewrite (bind_ok _ _ _ _ _ L1).
  reflexivity.
Qed.

(** C8: for a non-null buffer holding the units of "ab" and a zero
    unit, [utf16PtrToString] returns "ab" (for every fuel of at least
    the three rounds the scan takes).  Its loads are the three units of
    the scan and, for the decoding, the first two again: the units
    read are exactly the three of the buffer, none past the zero
    unit. *)
Theorem ab_buffer_reads_three_units :
  forall (arch : GoArch) (fuel : nat) (m : memory) (p : Z),
    0 < p -> p + 6 <= 2 ^ ptrBits arch ->
    (3 <= fuel)%nat ->
    peek m 2 p = Some 0x61 ->
    peek m 2 (p + 2) = Some 0x62 ->
    peek m 2 (p + 4) = Some 0 ->
    result (utf16PtrToString arch fuel p m) = Ok "ab"%string /\
    loads (utf16PtrToString arch fuel p m)
    = [(p, 2); (p + 2, 2); (p + 4, 2); (p, 2); (p + 2, 2)] /\
    (forall u : access,
        In u (loads (utf16PtrToString arch fuel p m)) <->
        In u [(p, 2); (p + 2, 2); (p + 4, 2)]).
Proof.
  intros arch fuel m p Hp Hend Hfuel H0 H1 H2.
  destruct fuel as [| [| [| f]]]; try lia.
  assert (E : utf16PtrToString arch (S (S (S f))) p m
              = (Ok "ab"%string,
                 [(p, 2); (p + 2, 2); (p + 4, 2); (p, 2); (p + 2, 2)])).
  { unfold utf16PtrToString.
    assert (Hnz : p <> 0) by lia. take_nonnull Hnz.
    rewrite (bind_ok _ _ _ _ _ (scan_ab arch f m p Hp Hend H0 H1 H2)).
    change (Z.to_nat 2) with 2%nat.
    rewrite (bind_ok _ _ _ _ _ (load_units_ab arch m p Hp Hend H0 H1)).
    reflexivity. }
  rewrite E. unfold result, loads. cbn [fst snd].
  split; [reflexivity | split; [reflexivity |]].
  intros u. cbn [In]. tauto.
Qed.

(** The element at [0x33000] has the type [vaultElementTypeBoolean];
    the decoder returns nil for it: no variant stands for an
    unsupported type. *)
Lemma boolean_element_gives_nil :
  peek demo_memory 4 (0x33000 + elem_Type) = Some vaultElementTypeBoolean /\
  result (convertToVaultItemElement Arch64 20 0x33000 demo_memory) = Ok None /\
  ~ other_tags_give_a_variant.
Proof.
  split; [vm_compute; reflexivity |].
  split; [vm_compute; reflexivity |].
  intros H.
  destruct (H Arch64 20%nat demo_memory 0x33000 0) as [e He].
  - discriminate.
  - vm_compute. reflexivity.
  - vm_compute. discriminate.
  - vm_compute. discriminate.
  - vm_compute in He. discriminate He.
Qed.

Lemma other_tag_gives_nil_witness :
  peek demo_memory 4 (0x33000 + elem_Type) = Some vaultElementTypeBoolean /\
  convertToVaultItemElement Arch64 20 0x33000 demo_memory
  = (Ok None, [(0x33000 + elem_Type, 4)]).
Proof.
  split.
  - vm_compute. reflexivity.
  - apply (other_tag_gives_nil Arch64 20 demo_memory 0x33000 0).
    + discriminate.
    + vm_compute. reflexivity.
    + vm_compute. discriminate.
    + vm_compute. discriminate.
Defined.

Lemma zero_length_gives_empty_bytes_witness :
  result (convertToVaultItemElement Arch64 20 0x32200 demo_memory)
  = Ok (Some (ElemByteArray (VaultItemElementByteArray.mk 3 []))).
Proof.
  apply (zero_length_gives_empty_bytes Arch64 20 demo_memory 0x32200 3 0x32240).
  - discriminate.
  - vm_compute. reflexivity.
  - vm_compute. reflexivity.
  - vm_compute. reflexivity.
  - vm_compute. reflexivity.
Defined.

Lemma ab_buffer_reads_three_units_witness :
  result (utf16PtrToString Arch64 20 0x40000 demo_memory) = Ok "ab"%string /\
  loads (utf16PtrToString Arch64 20 0x40000 demo_memory)
  = [(0x40000, 2); (0x40000 + 2, 2); (0x40000 + 4, 2);
     (0x40000, 2); (0x40000 + 2, 2)] /\
  (forall u : access,
      In u (loads (utf16PtrToString Arch64 20 0x40000 demo_memory)) <->
      In u [(0x40000, 2); (0x40000 + 2, 2); (0x40000 + 4, 2)]).
Proof.
  apply (ab_buffer_reads_three_units Arch64 20 demo_memory 0x40000).
  - reflexivity.
  - vm_compute. discriminate.
  - apply le_S, le_S, le_S, le_S, le_S, le_S, le_S, le_S, le_S, le_S,
      le_S, le_S, le_S, le_S, le_S, le_S, le_S, le_n.
  - vm_compute. reflexivity.
  - vm_compute. reflexivity.
  - vm_compute. reflexivity.
Defined.

(** ** The two record layouts *)

Ltac split_bind H :=
  rewrite result_bind in H;
  match type of H with
  | match ?r with _ => _ end = _ =>
      let E := fresh "E" in destruct r eqn:E; try discriminate H
  end.

Ltac same_decoding c :=
  rewrite !(result_bind c);
  match goal with
  | |- context [result (c ?m)] => destruct (result (c m)); try reflexivity
  end.

Lemma convertToVaultItem7_fields arch fuel m item f :
  result (fields7 arch item m) = Ok f ->
  result (convertToVaultItem7 arch fuel item m)
  = result (itemOfFields arch fuel f m).
Proof.
  intros H. unfold fields7 in H.
  split_bind H. split_bind H. split_bind H. split_bind H. split_bind H.
  split_bind H.
  injection H as <-.
  unfold convertToVaultItem7, itemOfFields.
  cbn [F_ID F_Name F_Resource F_Identity F_Authenticator F_Filetime].
  rewrite result_bind, E. rewrite result_bind, E0.
  same_decoding (utf16PtrToString arch fuel a0).
  rewrite result_bind, E1.
  same_decoding (convertToVaultItemElement arch fuel a1).
  rewrite result_bind, E2.
  same_decoding (convertToVaultItemElement arch fuel a2).
  rewrite result_bind, E3.
  same_decoding (convertToVaultItemElement arch fuel a3).
  rewrite result_bind, E4. reflexivity.
Qed.

Lemma convertToVaultItem8_fields arch fuel m item f :
  result (fields8 arch item m) = Ok f ->
  result (convertToVaultItem8 arch fuel item m)
  = result (itemOfFields arch fuel f m).
Proof.
  intros H. unfold fields8 in H.
  split_bind H. split_bind H. split_bind H. split_bind H. split_bind H.
  split_bind H.
  injection H as <-.
  unfold convertToVaultItem8, itemOfFields.
  cbn [F_ID F_Name F_Resource F_Identity F_Authenticator F_Filetime].
  rewrite result_bind, E. rewrite result_bind, E0.
  same_decoding (utf16PtrToString arch fuel a0).
  rewrite result_bind, E1.
  same_decoding (convertToVaultItemElement arch fuel a1).
  rewrite result_bind, E2.
  same_decoding (convertToVaultItemElement arch fuel a2).
  rewrite result_bind, E3.
  same_decoding (convertToVaultItemElement arch fuel a3).
  rewrite result_bind, E4. reflexivity.
Qed.

(** C3: a Windows 7 record and a Windows 8 record with the same
    logical fields (identifier, name, resource, identity,
    authenticator, file time) are converted to the same result by
    [convertToVaultItem7] and [convertToVaultItem8]. *)
Theorem layouts_give_same_item :
  forall (arch : GoArch) (fuel : nat) (m : memory) (item7 item8 : Z)
         (f : ItemFields),
    result (fields7 arch item7 m) = Ok f ->
    result (fields8 arch item8 m) = Ok f ->
    result (convertToVaultItem7 arch fuel item7 m)
    = result (convertToVaultItem8 arch fuel item8 m).
Proof.
  intros arch fuel m item7 item8 f H7 H8.
  rewrite (convertToVaultItem7_fields arch fuel m item7 f H7).
  rewrite (convertToVaultItem8_fields arch fuel m item8 f H8).
  reflexivity.
Qed.

(** * Properties of the gateway *)

(** ** The detail fetch of one item *)

Lemma sysVaultGetItem7_events arch fuel St (api : NativeAPI St) h d w :
  fetch_events (sysVaultGetItem7 arch fuel St api h d w) w.
Proof.
  intros r w'. unfold sysVaultGetItem7, gw_bind, call.
  destruct (nat_VaultGetItem api h (I7_ID d) (I7_Resource d) (I7_Identity d) None
              (native w)) as [[ret item] s].
  destruct (ret =? NO_ERROR); cbn [negb].
  - unfold deferred, gw_bind, on_memory.
    destruct (result (convertToVaultItem7 arch fuel item _)); cbn;
      intros H; inversion H; subst.
    eexists. split; [cbn [free trace]; rewrite <- app_assoc; reflexivity |].
    left. eexists. eexists. split; reflexivity.
  - cbn. intros H. inversion H; subst.
    eexists. split; [reflexivity |].
    right. eexists. split; reflexivity.
Qed.

Lemma sysVaultGetItem8_events arch fuel St (api : NativeAPI St) h d w :
  fetch_events (sysVaultGetItem8 arch fuel St api h d w) w.
Proof.
  intros r w'. unfold sysVaultGetItem8, gw_bind, call.
  destruct (nat_VaultGetItem api h (I8_ID d) (I8_Resource d) (I8_Identity d)
              (Some (I8_PackageSid d)) (native w)) as [[ret item] s].
  destruct (ret =? NO_ERROR); cbn [negb].
  - unfold deferred, gw_bind, on_memory.
    destruct (result (convertToVaultItem8 arch fuel item _)); cbn;
      intros H; inversion H; subst.
    eexists. split; [cbn [free trace]; rewrite <- app_assoc; reflexivity |].
    left. eexists. eexists. split; reflexivity.
  - cbn. intros H. inversion H; subst.
    eexists. split; [reflexivity |].
    right. eexists. split; reflexivity.
Qed.

(** ** The loop over the descriptors *)

Lemma frees_app t1 t2 : frees (t1 ++ t2) = frees t1 ++ frees t2.
Proof. unfold frees. apply flat_map_app. Qed.

Section Loop.

Variable arch : GoArch.
Variable St : Type.
Variable api : NativeAPI St.
Variable D : Type.
Variable size : Z.
Variable load : Z -> Rd D.
Variable get : D -> Gw St (option VaultItem * option error).
Variable items : Z.

Hypothesis get_events : forall d w, fetch_events (get d w) w.

(** The loop keeps, in order, the items of the fetches that returned
    no error; its trace is that of the fetches. *)
Lemma fetch_loop_outcomes :
  forall n i acc w outs w2,
    fetch_outcomes arch St api size load get items n i w = (Ok outs, w2) ->
    fetch_loop arch St api size load get items n i acc w
    = (Ok (acc ++ fetched outs), w2) /\
    List.length outs = n /\
    exists body,
      trace w2 = trace w ++ body /\
      List.length (frees body) = List.length (fetched outs).
Proof.
  induction n as [| n IH]; intros i acc w outs w2 H.
  - cbn in H. inversion H; subst. cbn.
    rewrite app_nil_r. repeat split.
    exists []. rewrite app_nil_r. split; reflexivity.
  - cbn [fetch_outcomes fetch_loop] in *.
    unfold gw_bind, on_memory in *.
    destruct (result (load _ _)) as [d | | | |]; try discriminate H.
    pose proof (get_events d w) as Hev.
    destruct (get d w) as [[r | | | |] w1]; try discriminate H.
    destruct (fetch_outcomes arch St api size load get items n (i + 1) w1)
      as [[rs | | | |] w2'] eqn:Hrest; try discriminate H.
    cbn in H. inversion H; subst. clear H.
    destruct (Hev r w1 eq_refl) as [ev [Htr Hr]].
    destruct Hr as [[v [p [-> Hf]]] | [e [-> Hf]]].
    + destruct (IH (i + 1) (acc ++ [v]) w1 rs w2 Hrest)
        as [Hloop [Hlen [body [Hb Hfb]]]].
      rewrite Hloop. cbn [fetched flat_map]. rewrite <- app_assoc.
      repeat split; [cbn; congruence |].
      exists (ev ++ body). rewrite Hb, Htr, app_assoc. split; [reflexivity |].
      rewrite frees_app, Hf. cbn [app List.length].
      change (flat_map _ rs) with (fetched rs). congruence.
    + destruct (IH (i + 1) acc w1 rs w2 Hrest)
        as [Hloop [Hlen [body [Hb Hfb]]]].
      rewrite Hloop. cbn [fetched flat_map app].
      repeat split; [cbn; congruence |].
      exists (ev ++ body). rewrite Hb, Htr, app_assoc. split; [reflexivity |].
      rewrite frees_app, Hf. cbn [app].
      change (flat_map _ rs) with (fetched rs). congruence.
Qed.

End Loop.

(** ** The listing *)

Lemma sysVaultEnumerateItems_run arch fuel St (api : NativeAPI St) h w
      count items s1 outs w2 :
  nat_VaultEnumerateItems api h (native w) = ((NO_ERROR, count, items), s1) ->
  item_outcomes arch fuel St api h items count
    (mkWorld s1 (trace w ++ [CallVaultEnumerateItems h])) = (Ok outs, w2) ->
  sysVaultEnumerateItems arch fuel St api h w
  = (Ok (fetched outs, None), free St api items w2) /\
  List.length outs = Z.to_nat count /\
  exists body,
    trace w2 = (trace w ++ [CallVaultEnumerateItems h]) ++ body /\
    List.length (frees body) = List.length (fetched outs).
Proof.
  intros Henum Hout.
  unfold sysVaultEnumerateItems, gw_bind, call. rewrite Henum.
  cbn [negb Z.eqb NO_ERROR]. unfold deferred, gw_bind.
  unfold item_outcomes in Hout.
  destruct (useAPI7 St api).
  - apply (fetch_loop_outcomes arch St api _ _ _ _ _
             (sysVaultGetItem7_events arch fuel St api h)) with (acc := [])
      in Hout.
    destruct Hout as [Hloop [Hlen Hbody]]. rewrite Hloop.
    repeat split; assumption.
  - apply (fetch_loop_outcomes arch St api _ _ _ _ _
             (sysVaultGetItem8_events arch fuel St api h)) with (acc := [])
      in Hout.
    destruct Hout as [Hloop [Hlen Hbody]]. rewrite Hloop.
    repeat split; assumption.
Qed.

(** C2: when the native listing succeeds and each detail fetch
    returns, with an item or with an error, [Items] returns a nil
    error and exactly the items of the fetches that succeeded, in the
    order of the descriptors; the failed ones are left out.  There is
    one fetch per descriptor. *)
Theorem listing_keeps_fetched_items :
  forall (arch : GoArch) (fuel : nat) (St : Type) (api : NativeAPI St)
         (t : Vault) (w : world St) (count items : Z) (s1 : St)
         (outs : list (option VaultItem * option error)) (w2 : world St),
    nat_VaultEnumerateItems api (V_handle t) (native w)
    = ((NO_ERROR, count, items), s1) ->
    item_outcomes arch fuel St api (V_handle t) items count
      (mkWorld s1 (trace w ++ [CallVaultEnumerateItems (V_handle t)]))
    = (Ok outs, w2) ->
    fst (Items arch fuel St api t w) = Ok (fetched outs, None) /\
    List.length outs = Z.to_nat count.
Proof.
  intros arch fuel St api t w count items s1 outs w2 Henum Hout.
  destruct (sysVaultEnumerateItems_run arch fuel St api _ w _ _ _ _ _ Henum Hout)
    as [Hrun [Hlen _]].
  unfold Items. rewrite Hrun. split; [reflexivity | exact Hlen].
Qed.

(** In the listing of the three descriptors whose second detail fetch
    fails, the first and the third item are returned, in that order,
    with a nil error. *)
Lemma listing_keeps_fetched_items_witness :
  demo_outcomes
  = [(nth 0 (map fst demo_outcomes) None, None);
     (None, Some (Errno ERROR_NOT_FOUND));
     (nth 2 (map fst demo_outcomes) None, None)] /\
  fst (Items Arch64 20 unit demo_api demo_vault demo_world)
  = Ok (fetched demo_outcomes, None) /\
  List.length demo_outcomes = Z.to_nat 3 /\
  map (fun item => option_map AsString (VI_Resource item)) (fetched demo_outcomes)
  = [Some "example.com"%string; Some "example.org"%string].
Proof.
  split; [vm_compute; reflexivity |].
  assert (forall A B C : Prop, A /\ B -> C -> A /\ B /\ C) as conj3 by tauto.
  apply conj3; [| vm_compute; reflexivity].
  apply (listing_keeps_fetched_items Arch64 20 unit demo_api demo_vault
           demo_world 3 0x10000 tt demo_outcomes
           (snd (item_outcomes Arch64 20 unit demo_api 0x77 0x10000 3
                   (mkWorld tt [CallVaultEnumerateItems 0x77])))).
  - vm_compute. reflexivity.
  - vm_compute. reflexivity.
Defined.

Lemma sysVaultGetItem7_frees_answers arch fuel St (api : NativeAPI St) h d w :
  fetch_frees_answers api (sysVaultGetItem7 arch fuel St api h d w) w.
Proof.
  intros r w'. unfold sysVaultGetItem7, gw_bind, call.
  destruct (nat_VaultGetItem api h (I7_ID d) (I7_Resource d) (I7_Identity d) None
              (native w)) as [[ret item] s] eqn:Hcall.
  destruct (ret =? NO_ERROR) eqn:Hret; cbn [negb].
  - apply Z.eqb_eq in Hret. subst ret.
    unfold deferred, gw_bind, on_memory.
    destruct (result (convertToVaultItem7 arch fuel item _)); cbn;
      intros H; inversion H; subst.
    eexists. split; [cbn [free trace]; rewrite <- app_assoc; reflexivity |].
    cbn. constructor; [| constructor].
    exists h, (I7_ID d), (I7_Resource d), (I7_Identity d), None, (native w), s.
    exact Hcall.
  - cbn. intros H. inversion H; subst.
    eexists. split; [reflexivity | constructor].
Qed.

Lemma sysVaultGetItem8_frees_answers arch fuel St (api : NativeAPI St) h d w :
  fetch_frees_answers api (sysVaultGetItem8 arch fuel St api h d w) w.
Proof.
  intros r w'. unfold sysVaultGetItem8, gw_bind, call.
  destruct (nat_VaultGetItem api h (I8_ID d) (I8_Resource d) (I8_Identity d)
              (Some (I8_PackageSid d)) (native w)) as [[ret item] s] eqn:Hcall.
  destruct (ret =? NO_ERROR) eqn:Hret; cbn [negb].
  - apply Z.eqb_eq in Hret. subst ret.
    unfold deferred, gw_bind, on_memory.
    destruct (result (convertToVaultItem8 arch fuel item _)); cbn;
      intros H; inversion H; subst.
    eexists. split; [cbn [free trace]; rewrite <- app_assoc; reflexivity |].
    cbn. constructor; [| constructor].
    exists h, (I8_ID d), (I8_Resource d), (I8_Identity d),
      (Some (I8_PackageSid d)), (native w), s.
    exact Hcall.
  - cbn. intros H. inversion H; subst.
    eexists. split; [reflexivity | constructor].
Qed.

Section LoopFrees.

Variable arch : GoArch.
Variable St : Type.
Variable api : NativeAPI St.
Variable D : Type.
Variable size : Z.
Variable load : Z -> Rd D.
Variable get : D -> Gw St (option VaultItem * option error).
Variable items : Z.

Hypothesis get_frees : forall d w, fetch_frees_answers api (get d w) w.

(** The fetches of a listing free nothing but detail records that the
    native side has given. *)
Lemma fetch_outcomes_frees :
  forall n i w outs w2,
    fetch_outcomes arch St api size load get items n i w = (Ok outs, w2) ->
    exists body,
      trace w2 = trace w ++ body /\
      Forall (native_detail_answer api) (frees body).
Proof.
  induction n as [| n IH]; intros i w outs w2 H.
  - cbn in H. inversion H; subst. exists []. rewrite app_nil_r.
    split; [reflexivity | constructor].
  - cbn [fetch_outcomes] in H. unfold gw_bind, on_memory in H.
    destruct (result (load _ _)) as [d | | | |]; try discriminate H.
    pose proof (get_frees d w) as Hev.
    destruct (get d w) as [[r | | | |] w1]; try discriminate H.
    destruct (fetch_outcomes arch St api size load get items n (i + 1) w1)
      as [[rs | | | |] w2'] eqn:Hrest; try discriminate H.
    cbn in H. inversion H; subst. clear H.
    destruct (Hev r w1 eq_refl) as [ev [Htr Hfree]].
    destruct (IH _ _ _ _ Hrest) as [body [Hb Hfb]].
    exists (ev ++ body). rewrite Hb, Htr, app_assoc. split; [reflexivity |].
    rewrite frees_app. apply Forall_app. split; assumption.
Qed.

End LoopFrees.

Lemma item_outcomes_frees arch fuel St (api : NativeAPI St) h items count w outs w2 :
  item_outcomes arch fuel St api h items count w = (Ok outs, w2) ->
  exists body,
    trace w2 = trace w ++ body /\
    Forall (native_detail_answer api) (frees body).
Proof.
  unfold item_outcomes. destruct (useAPI7 St api); intros H.
  - exact (fetch_outcomes_frees arch St api _ _ _ _ _
             (sysVaultGetItem7_frees_answers arch fuel St api h) _ _ _ _ _ H).
  - exact (fetch_outcomes_frees arch St api _ _ _ _ _
             (sysVaultGetItem8_frees_answers arch fuel St api h) _ _ _ _ _ H).
Qed.


(** The detail records of the explicit native side lie at [0x20000] and
    [0x20100], the listed buffer at [0x10000]. *)
Lemma demo_answers_apart :
  forall p : Z, native_detail_answer demo_api p -> p <> 0x10000.
Proof.
  intros p (h & id & res & idn & sid & s & s' & H).
  cbn [demo_api nat_VaultGetItem] in H.
  destruct id as [| b id]; [inversion H |].
  destruct (Z_of_byte b =? 1); [inversion H; discriminate |].
  destruct (Z_of_byte b =? 3); [inversion H; discriminate | inversion H].
Qed.


(** ** Status codes *)

(** C5 (as amended): [sysVaultCloseVault] returns the native status as
    an error when it is not zero; [Close] drops that error: whatever
    the status, it gives its caller nothing but the vault with the
    handle set to [InvalidHandle], after the one native call. *)
Theorem Close_drops_the_status :
  forall (arch : GoArch) (St : Type) (api : NativeAPI St)
         (t : Vault) (w : world St),
    let ret := fst (nat_VaultCloseVault api (V_handle t) (native w)) in
    fst (sysVaultCloseVault St api (V_handle t) w)
    = Ok (if ret =? NO_ERROR then None else Some (Errno ret)) /\
    fst (Close arch St api t w)
    = Ok (mkVault (V_ID t) (V_Name t) (V_Path t) (InvalidHandle arch)) /\
    snd (Close arch St api t w) = snd (sysVaultCloseVault St api (V_handle t) w) /\
    trace (snd (Close arch St api t w))
    = trace w ++ [CallVaultCloseVault (V_handle t)].
Proof.
  intros arch St api t w ret. subst ret.
  unfold Close, sysVaultCloseVault, gw_bind, call.
  destruct (nat_VaultCloseVault api (V_handle t) (native w)) as [ret s].
  cbn [fst]. destruct (ret =? NO_ERROR); cbn; repeat split; reflexivity.
Qed.

(** A close that fails with [ERROR_ACCESS_DENIED] and one that
    succeeds leave the caller of [Close] with the same, while
    [sysVaultCloseVault] returned the error in the first: the status
    cannot be told from what [Close] gives. *)
Lemma Close_hides_the_status :
  fst (sysVaultCloseVault unit (status_api ERROR_ACCESS_DENIED)
         (V_handle demo_vault) demo_world)
  = Ok (Some (Errno ERROR_ACCESS_DENIED)) /\
  fst (Close Arch64 unit (status_api ERROR_ACCESS_DENIED) demo_vault demo_world)
  = fst (Close Arch64 unit (status_api NO_ERROR) demo_vault demo_world) /\
  ~ Close_surfaces_status.
Proof.
  split; [vm_compute; reflexivity |].
  split; [vm_compute; reflexivity |].
  intros [observe H].
  pose proof (H Arch64 unit (status_api ERROR_ACCESS_DENIED) demo_vault demo_world) as H5.
  pose proof (H Arch64 unit (status_api NO_ERROR) demo_vault demo_world) as H0.
  vm_compute in H5, H0. rewrite H5 in H0. discriminate H0.
Qed.

(** Every wrapper of a native call returns, for a status that is not
    zero, the error [Errno] carrying that status and the zero value of
    its result. *)
Lemma wrappers_return_Errno :
  forall (arch : GoArch) (fuel : nat) (St : Type) (api : NativeAPI St)
         (w : world St),
    (forall id ret handle s,
        nat_VaultOpenVault api id (native w) = ((ret, handle), s) ->
        ret <> NO_ERROR ->
        fst (sysVaultOpenVault St api id w) = Ok (0, Some (Errno ret))) /\
    (forall handle ret s,
        nat_VaultCloseVault api handle (native w) = (ret, s) ->
        ret <> NO_ERROR ->
        fst (sysVaultCloseVault St api handle w) = Ok (Some (Errno ret))) /\
    (forall handle kind ret value s,
        nat_VaultGetInformation api handle kind (native w) = ((ret, value), s) ->
        ret <> NO_ERROR ->
        fst (sysVaultGetInformationString arch fuel St api handle kind w)
        = Ok (""%string, Some (Errno ret))) /\
    (forall ret count guids s,
        nat_VaultEnumerateVaults api (native w) = ((ret, count, guids), s) ->
        ret <> NO_ERROR ->
        fst (sysVaultEnumerateVaults arch St api w) = Ok ([], Some (Errno ret))) /\
    (forall handle ret count items s,
        nat_VaultEnumerateItems api handle (native w) = ((ret, count, items), s) ->
        ret <> NO_ERROR ->
        fst (sysVaultEnumerateItems arch fuel St api handle w)
        = Ok ([], Some (Errno ret))) /\
    (forall handle d ret item s,
        nat_VaultGetItem api handle (I7_ID d) (I7_Resource d) (I7_Identity d)
          None (native w) = ((ret, item), s) ->
        ret <> NO_ERROR ->
        fst (sysVaultGetItem7 arch fuel St api handle d w)
        = Ok (None, Some (Errno ret))) /\
    (forall handle d ret item s,
        nat_VaultGetItem api handle (I8_ID d) (I8_Resource d) (I8_Identity d)
          (Some (I8_PackageSid d)) (native w) = ((ret, item), s) ->
        ret <> NO_ERROR ->
        fst (sysVaultGetItem8 arch fuel St api handle d w)
        = Ok (None, Some (Errno ret))).
Proof.
  intros arch fuel St api w.
  repeat split; intros;
    match goal with
    | Hret : _ <> NO_ERROR |- _ => apply Z.eqb_neq in Hret
    end;
    unfold sysVaultOpenVault, sysVaultCloseVault, sysVaultGetInformationString,
      sysVaultEnumerateVaults, sysVaultEnumerateItems, sysVaultGetItem7,
      sysVaultGetItem8, gw_bind, call;
    match goal with
    | Hcall : _ = _ |- _ => rewrite Hcall
    end;
    match goal with
    | Hret : (_ =? NO_ERROR) = false |- _ => rewrite Hret
    end;
    reflexivity.
Qed.

Lemma invented_apart (inv : InventedErrno) (ret : Z) :
  invented_above inv -> 0 < ret < APPLICATION_ERROR ->
  (ret =? EACCES inv) = false /\ (ret =? EPERM inv) = false /\
  (ret =? EEXIST inv) = false /\ (ret =? ENOTEMPTY inv) = false /\
  (ret =? ENOENT inv) = false /\ (ret =? ENOSYS inv) = false /\
  (ret =? ENOTSUP inv) = false /\ (ret =? EOPNOTSUPP inv) = false /\
  (ret =? EWINDOWS inv) = false.
Proof.
  intros (H1 & H2 & H3 & H4 & H5 & H6 & H7 & H8 & H9) Hret.
  repeat split; apply Z.eqb_neq; lia.
Qed.

(** C6 (as amended): every wrapper of a native call returns, for a
    status that is not zero, the error [Errno] carrying that status and
    the zero value of its result, for every status alike; the package
    makes no kinds of its own.  Of such an error for a native status,
    [errors.Is] recognises access-denied (5) as [ErrPermission] and
    file-not-found, path-not-found and bad-net-path (2, 3, 53) as
    [ErrNotExist], without the caller reading the code; the status
    [ERROR_NOT_FOUND] (1168) is recognised as no kind. *)
Theorem status_is_returned_as_Errno_of_its_kind :
  forall (arch : GoArch) (fuel : nat) (St : Type) (api : NativeAPI St)
         (w : world St) (inv : InventedErrno),
    invented_above inv ->
    ((forall id ret handle s,
         nat_VaultOpenVault api id (native w) = ((ret, handle), s) ->
         ret <> NO_ERROR ->
         fst (sysVaultOpenVault St api id w) = Ok (0, Some (Errno ret))) /\
     (forall handle ret s,
         nat_VaultCloseVault api handle (native w) = (ret, s) ->
         ret <> NO_ERROR ->
         fst (sysVaultCloseVault St api handle w) = Ok (Some (Errno ret))) /\
     (forall handle kind ret value s,
         nat_VaultGetInformation api handle kind (native w) = ((ret, value), s) ->
         ret <> NO_ERROR ->
         fst (sysVaultGetInformationString arch fuel St api handle kind w)
         = Ok (""%string, Some (Errno ret))) /\
     (forall ret count guids s,
         nat_VaultEnumerateVaults api (native w) = ((ret, count, guids), s) ->
         ret <> NO_ERROR ->
         fst (sysVaultEnumerateVaults arch St api w) = Ok ([], Some (Errno ret))) /\
     (forall handle ret count items s,
         nat_VaultEnumerateItems api handle (native w) = ((ret, count, items), s) ->
         ret <> NO_ERROR ->
         fst (sysVaultEnumerateItems arch fuel St api handle w)
         = Ok ([], Some (Errno ret))) /\
     (forall handle d ret item s,
         nat_VaultGetItem api handle (I7_ID d) (I7_Resource d) (I7_Identity d)
           None (native w) = ((ret, item), s) ->
         ret <> NO_ERROR ->
         fst (sysVaultGetItem7 arch fuel St api handle d w)
         = Ok (None, Some (Errno ret))) /\
     (forall handle d ret item s,
         nat_VaultGetItem api handle (I8_ID d) (I8_Resource d) (I8_Identity d)
           (Some (I8_PackageSid d)) (native w) = ((ret, item), s) ->
         ret <> NO_ERROR ->
         fst (sysVaultGetItem8 arch fuel St api handle d w)
         = Ok (None, Some (Errno ret)))) /\
    (forall ret : Z,
        0 < ret < APPLICATION_ERROR ->
        errors_Is inv (Errno ret) ErrPermission = (ret =? ERROR_ACCESS_DENIED) /\
        errors_Is inv (Errno ret) ErrNotExist
        = (ret =? ERROR_FILE_NOT_FOUND) || (ret =? ERROR_BAD_NETPATH)
          || (ret =? ERROR_PATH_NOT_FOUND)) /\
    (forall k : ErrKind, errors_Is inv (Errno ERROR_NOT_FOUND) k = false).
Proof.
  intros arch fuel St api w inv Hinv.
  split; [exact (wrappers_return_Errno arch fuel St api w) |].
  split.
  - intros ret Hret.
    destruct (invented_apart inv ret Hinv Hret)
      as (E1 & E2 & E3 & E4 & E5 & E6 & E7 & E8 & E9).
    cbn [errors_Is Errno_Is]. rewrite E1, E2, E5.
    rewrite !orb_false_r. split; reflexivity.
  - assert (Hnf : 0 < ERROR_NOT_FOUND < APPLICATION_ERROR)
      by (split; reflexivity).
    destruct (invented_apart inv ERROR_NOT_FOUND Hinv Hnf)
      as (E1 & E2 & E3 & E4 & E5 & E6 & E7 & E8 & E9).
    intros [| | |]; cbn [errors_Is Errno_Is];
      rewrite ?E1, ?E2, ?E3, ?E4, ?E5, ?E6, ?E7, ?E8, ?E9; reflexivity.
Qed.

Lemma demo_invented_above : invented_above demo_invented.
Proof. repeat split; discriminate. Qed.

(** An open refused with [ERROR_ACCESS_DENIED] returns [Errno 5], which
    is recognised as [ErrPermission]; an information query refused
    with [ERROR_NOT_FOUND] returns [Errno 1168], which is not
    recognised as [ErrNotExist]. *)
Lemma status_is_returned_as_Errno_of_its_kind_witness :
  fst (sysVaultOpenVault unit (status_api ERROR_ACCESS_DENIED) [] demo_world)
  = Ok (0, Some (Errno ERROR_ACCESS_DENIED)) /\
  fst (sysVaultGetInformationString Arch64 20 unit (status_api ERROR_NOT_FOUND)
         0x77 vaultInformationKindName demo_world)
  = Ok (""%string, Some (Errno ERROR_NOT_FOUND)) /\
  errors_Is demo_invented (Errno ERROR_ACCESS_DENIED) ErrPermission
  = (ERROR_ACCESS_DENIED =? ERROR_ACCESS_DENIED) /\
  errors_Is demo_invented (Errno ERROR_NOT_FOUND) ErrNotExist = false.
Proof.
  destruct (status_is_returned_as_Errno_of_its_kind Arch64 20 unit
              (status_api ERROR_ACCESS_DENIED) demo_world demo_invented
              demo_invented_above) as [[Hopen _] [Hkind Hnone]].
  destruct (status_is_returned_as_Errno_of_its_kind Arch64 20 unit
              (status_api ERROR_NOT_FOUND) demo_world demo_invented
              demo_invented_above) as [[_ [_ [Hinfo _]]] _].
  split; [| split; [| split]].
  - apply (Hopen [] ERROR_ACCESS_DENIED 0 tt); [reflexivity | discriminate].
  - apply (Hinfo 0x77 vaultInformationKindName ERROR_NOT_FOUND 0 tt);
      [reflexivity | discriminate].
  - apply (Hkind ERROR_ACCESS_DENIED). split; reflexivity.
  - apply (Hnone ErrNotExist).
Defined.

(** An open refused with [ERROR_NOT_FOUND] returns [Errno 1168], and
    [errors.Is] recognises that error as none of the kinds, while it
    recognises the error of an open refused with
    [ERROR_ACCESS_DENIED] as [ErrPermission]: the not-found status has
    no named kind. *)
Lemma not_found_status_has_no_kind :
  fst (sysVaultOpenVault unit (status_api ERROR_NOT_FOUND) [] demo_world)
  = Ok (0, Some (Errno ERROR_NOT_FOUND)) /\
  (forall k : ErrKind,
      errors_Is demo_invented (Errno ERROR_NOT_FOUND) k = false) /\
  errors_Is demo_invented (Errno ERROR_ACCESS_DENIED) ErrPermission = true /\
  ~ both_statuses_have_a_kind.
Proof.
  split; [vm_compute; reflexivity |].
  split; [intros [| | |]; vm_compute; reflexivity |].
  split; [vm_compute; reflexivity |].
  intros [kNotFound [kAccessDenied H]].
  destruct (H demo_invented demo_invented_above unit (status_api ERROR_NOT_FOUND)
              [] demo_world ERROR_NOT_FOUND eq_refl) as [Hnf _].
  destruct (Hnf eq_refl) as [h [e [Hrun Hkind]]].
  vm_compute in Hrun. injection Hrun as _ <-.
  destruct kNotFound; vm_compute in Hkind; discriminate Hkind.
Qed.

Lemma layouts_give_same_item_witness :
  result (convertToVaultItem7 Arch64 20 0x20200 demo_memory)
  = result (convertToVaultItem8 Arch64 20 0x20000 demo_memory) /\
  option_map fst (nth_error demo_outcomes 0)
  = match result (convertToVaultItem8 Arch64 20 0x20000 demo_memory) with
    | Ok item => Some (Some item)
    | _ => None
    end.
Proof.
  split.
  - apply (layouts_give_same_item Arch64 20 demo_memory 0x20200 0x20000
             (mkItemFields (map byte_of_Z (uuid_bytes 1)) 0x30000 0x31000
                0x31100 0x31200
                (mkFiletime (demo_filetime mod 2 ^ 32) (demo_filetime / 2 ^ 32)))).
    + vm_compute. reflexivity.
    + vm_compute. reflexivity.
  - vm_compute. reflexivity.
Defined.

(** * Further properties of the converters *)

(** ** Copies of byte regions *)

Lemma byte_of_Z_of_byte (b : byte) : byte_of_Z (Z_of_byte b + 256 * 0) = b.
Proof.
  unfold byte_of_Z, Z_of_byte.
  pose proof (Byte.to_N_bounded b) as Hb.
  replace (Z.of_N (Byte.to_N b) + 256 * 0) with (Z.of_N (Byte.to_N b)) by lia.
  rewrite Z.mod_small by lia.
  rewrite N2Z.id, Byte.of_to_N. reflexivity.
Qed.

(** The loads of a copy of [n] bytes from [p]. *)
Lemma byte_loads_shift p n :
  (p, 1) :: map (fun i => (p + 1 + Z.of_nat i, 1)) (seq 0 n)
  = map (fun i => (p + Z.of_nat i, 1)) (seq 0 (S n)).
Proof.
  cbn [seq map]. rewrite <- seq_shift, map_map.
  f_equal; [f_equal; lia |].
  apply map_ext. intros i. f_equal. lia.
Qed.

Lemma load_bytes_run :
  forall (bs : list byte) (p : Z) (m : memory),
    (forall i, (i < List.length bs)%nat ->
               m (p + Z.of_nat i) = Some (nth i bs x00)) ->
    load_bytes (List.length bs) p m
    = (Ok bs, map (fun i => (p + Z.of_nat i, 1)) (seq 0 (List.length bs))).
Proof.
  induction bs as [| b bs IH]; intros p m H.
  - reflexivity.
  - cbn [List.length load_bytes].
    assert (H0 : peek m 1 p = Some (Z_of_byte b + 256 * 0)).
    { cbn [peek]. pose proof (H 0%nat) as E. cbn in E.
      replace (p + 0) with p in E by lia. rewrite E by lia. reflexivity. }
    rewrite (bind_ok _ _ _ _ _ (load_ok 1 p m _ H0)).
    assert (Hrest : load_bytes (List.length bs) (p + 1) m
                    = (Ok bs, map (fun i => (p + 1 + Z.of_nat i, 1))
                                (seq 0 (List.length bs)))).
    { apply IH. intros i Hi. pose proof (H (S i)) as E. cbn [nth] in E.
      replace (p + 1 + Z.of_nat i) with (p + Z.of_nat (S i)) by lia.
      apply E. cbn. lia. }
    rewrite (bind_ok _ _ _ _ _ Hrest).
    cbn [rd_ret fst snd]. rewrite byte_of_Z_of_byte, app_nil_r.
    cbn [app Z.of_nat]. rewrite byte_loads_shift. reflexivity.
Qed.

Lemma load_bytes_length :
  forall (n : nat) (p : Z) (m : memory) (bs : list byte),
    result (load_bytes n p m) = Ok bs -> List.length bs = n.
Proof.
  induction n as [| n IH]; intros p m bs H.
  - cbn in H. injection H as <-. reflexivity.
  - cbn [load_bytes] in H.
    rewrite result_bind in H.
    destruct (result (load 1 p m)); try discriminate H.
    rewrite result_bind in H.
    destruct (result (load_bytes n (p + 1) m)) as [l | | | |] eqn:E;
      try discriminate H.
    cbn in H. injection H as <-. cbn. f_equal. exact (IH _ _ _ E).
Qed.

(** X1: for a non-null source, [goBytes] returns exactly the [len]
    bytes that lie at [src], and loads each of them once and nothing
    outside [src .. src+len-1]. *)
Theorem goBytes_copies_the_region :
  forall (arch : GoArch) (m : memory) (src : Z) (bs : list byte),
    src <> 0 ->
    Z.of_nat (List.length bs) < 2 ^ 31 ->
    (forall i, (i < List.length bs)%nat ->
               m (src + Z.of_nat i) = Some (nth i bs x00)) ->
    goBytes arch src (Z.of_nat (List.length bs)) m
    = (Ok bs, map (fun i => (src + Z.of_nat i, 1)) (seq 0 (List.length bs))).
Proof.
  intros arch m src bs Hnz Hlen Hmem.
  unfold goBytes. apply Z.eqb_neq in Hnz. rewrite Hnz.
  rewrite to_int_small.
  - replace (Z.of_nat (List.length bs) <? 0) with false
      by (symmetry; apply Z.ltb_ge; lia).
    rewrite Nat2Z.id. apply load_bytes_run. exact Hmem.
  - assert (2 ^ 31 <= 2 ^ (ptrBits arch - 1)) by (destruct arch; cbv; congruence).
    lia.
Qed.

Lemma goBytes_copies_the_region_witness :
  goBytes Arch64 0x31040 (Z.of_nat 4) demo_memory
  = (Ok ["e"%byte; x00; "x"%byte; x00],
     map (fun i => (0x31040 + Z.of_nat i, 1)) (seq 0 4)).
Proof.
  apply (goBytes_copies_the_region Arch64 demo_memory 0x31040
           ["e"%byte; x00; "x"%byte; x00]).
  - discriminate.
  - vm_compute. reflexivity.
  - intros i Hi. cbn [List.length] in Hi.
    destruct i as [| [| [| [| i]]]]; [| | | | lia]; vm_compute; reflexivity.
Defined.

(** ** Wide strings of any length *)

Lemma bind_fault {A B} (c : Rd A) (k : A -> Rd B) (m : memory) q l :
  c m = (Fault q, l) -> rd_bind c k m = (Fault q, l).
Proof. intros E. unfold rd_bind. rewrite E. reflexivity. Qed.

Lemma load_fault n p m :
  peek m n p = None -> load n p m = (Fault p, [(p, Z.of_nat n)]).
Proof. intros E. unfold load. rewrite E. reflexivity. Qed.

Lemma scan_address_any a p k :
  0 <= k -> 0 <= p -> p + 2 * k + 2 <= 2 ^ ptrBits a ->
  uintptr a (p + uintptr a (uintptr a k * 2)) = p + 2 * k.
Proof.
  intros Hk Hp Hend.
  rewrite (uintptr_small a k) by lia.
  rewrite (uintptr_small a (k * 2)) by lia.
  rewrite uintptr_small by lia. lia.
Qed.

Lemma unit_loads_shift p k n :
  (p + 2 * k, 2) :: map (fun i => (p + 2 * (k + 1 + Z.of_nat i), 2)) (seq 0 n)
  = map (fun i => (p + 2 * (k + Z.of_nat i), 2)) (seq 0 (S n)).
Proof.
  cbn [seq map]. rewrite <- seq_shift, map_map.
  f_equal; [f_equal; lia |].
  apply map_ext. intros i. f_equal. lia.
Qed.

(** The scan from round [k] on, over non-zero units [rest] that end
    in a zero unit or at unmapped memory. *)
Lemma scan_run a m p :
  forall (rest : list Z) (k : Z) (f : nat) (t : option Z),
    0 <= k -> 0 < p ->
    p + 2 * (k + Z.of_nat (List.length rest)) + 2 <= 2 ^ ptrBits a ->
    (List.length rest < f)%nat ->
    (forall i, (i < List.length rest)%nat ->
               peek m 2 (p + 2 * (k + Z.of_nat i)) = Some (nth i rest 0) /\
               nth i rest 0 <> 0) ->
    peek m 2 (p + 2 * (k + Z.of_nat (List.length rest))) = t ->
    t = Some 0 \/ t = None ->
    scan a f p k m
    = (match t with
       | Some _ => Ok (k + Z.of_nat (List.length rest))
       | None => Fault (p + 2 * (k + Z.of_nat (List.length rest)))
       end,
       map (fun i => (p + 2 * (k + Z.of_nat i), 2))
         (seq 0 (S (List.length rest)))).
Proof.
  induction rest as [| u rest IH]; intros k f t Hk Hp Hend Hf Hunits Hlast Ht.
  - destruct f as [| f]; [inversion Hf |].
    cbn [List.length Z.of_nat] in *.
    replace (k + 0) with k in * by lia.
    cbn [scan]. rewrite (scan_address_any a p k) by lia. unfold load_u16.
    cbn [seq map Z.of_nat]. replace (k + 0) with k by lia.
    destruct Ht as [-> | ->].
    + rewrite (bind_ok _ _ _ _ _ (load_ok 2 _ _ _ Hlast)).
      rewrite Z.eqb_refl. reflexivity.
    + rewrite (bind_fault _ _ _ _ _ (load_fault 2 _ _ Hlast)). reflexivity.
  - destruct f as [| f]; [inversion Hf |].
    cbn [List.length] in *.
    destruct (Hunits 0%nat) as [H0 Hnz]; [apply Nat.lt_0_succ |].
    cbn [nth Z.of_nat] in H0, Hnz. replace (k + 0) with k in H0 by lia.
    cbn [scan]. rewrite (scan_address_any a p k) by lia. unfold load_u16.
    rewrite (bind_ok _ _ _ _ _ (load_ok 2 _ _ _ H0)).
    apply Z.eqb_neq in Hnz. rewrite Hnz.
    assert (E2 : 2 ^ ptrBits a = 2 * 2 ^ (ptrBits a - 1))
      by (destruct a; reflexivity).
    rewrite to_int_small by lia.
    rewrite (IH (k + 1) f t); try lia.
    + cbn [fst snd app].
      replace (k + 1 + Z.of_nat (List.length rest))
        with (k + Z.of_nat (S (List.length rest))) by lia.
      rewrite unit_loads_shift. reflexivity.
    + intros i Hi. destruct (Hunits (S i)) as [Hp' Hn']; [lia |].
      cbn [nth] in Hp', Hn'.
      replace (k + 1 + Z.of_nat i) with (k + Z.of_nat (S i)) by lia.
      split; assumption.
    + replace (k + 1 + Z.of_nat (List.length rest))
        with (k + Z.of_nat (S (List.length rest))) by lia.
      exact Hlast.
    + exact Ht.
Qed.

Lemma load_units_run a m :
  forall (us : list Z) (p : Z),
    0 <= p -> p + 2 * Z.of_nat (List.length us) < 2 ^ ptrBits a ->
    (forall i, (i < List.length us)%nat ->
               peek m 2 (p + 2 * Z.of_nat i) = Some (nth i us 0)) ->
    load_units a (List.length us) p m
    = (Ok us, map (fun i => (p + 2 * Z.of_nat i, 2)) (seq 0 (List.length us))).
Proof.
  induction us as [| u us IH]; intros p Hp Hend Hunits.
  - reflexivity.
  - cbn [List.length] in *.
    pose proof (Hunits 0%nat (Nat.lt_0_succ _)) as H0.
    cbn [nth Z.of_nat] in H0. replace (p + 2 * 0) with p in H0 by lia.
    change (load_units a (S (List.length us)) p)
      with (u <- load_u16 p ;;
            us <- load_units a (List.length us) (uintptr a (p + 2)) ;;
            rd_ret (u :: us)).
    rewrite (uintptr_small a (p + 2)) by lia.
    unfold load_u16.
    rewrite (bind_ok _ _ _ _ _ (load_ok 2 _ _ _ H0)).
    assert (Hrest : load_units a (List.length us) (p + 2) m
                    = (Ok us, map (fun i => (p + 2 + 2 * Z.of_nat i, 2))
                                (seq 0 (List.length us)))).
    { apply IH; try lia. intros i Hi.
      replace (p + 2 + 2 * Z.of_nat i) with (p + 2 * Z.of_nat (S i)) by lia.
      apply (Hunits (S i)). lia. }
    rewrite (bind_ok _ _ _ _ _ Hrest).
    cbn [rd_ret fst snd app]. rewrite app_nil_r.
    cbn [seq map]. rewrite <- seq_shift, map_map.
    f_equal. f_equal; [f_equal; lia |].
    apply map_ext. intros i. f_equal. lia.
Qed.

(** The run of [utf16PtrToString] on a buffer of non-zero units [us]
    and a zero unit: the scan loads every unit and the zero unit, the
    decoding loads the units again. *)
Lemma utf16PtrToString_run a fuel m p us :
  0 < p ->
  p + 2 * Z.of_nat (List.length us) + 2 <= 2 ^ ptrBits a ->
  (List.length us < fuel)%nat ->
  (forall i, (i < List.length us)%nat ->
             peek m 2 (p + 2 * Z.of_nat i) = Some (nth i us 0) /\
             nth i us 0 <> 0) ->
  peek m 2 (p + 2 * Z.of_nat (List.length us)) = Some 0 ->
  utf16PtrToString a fuel p m
  = (Ok (gostring_of_runes (Decode us)),
     map (fun i => (p + 2 * Z.of_nat i, 2)) (seq 0 (S (List.length us)))
     ++ map (fun i => (p + 2 * Z.of_nat i, 2)) (seq 0 (List.length us))).
Proof.
  intros Hp Hend Hfuel Hunits Hzero.
  unfold utf16PtrToString.
  assert (Hnz : p <> 0) by lia. take_nonnull Hnz.
  assert (Hscan : scan a fuel p 0 m
                  = (Ok (Z.of_nat (List.length us)),
                     map (fun i => (p + 2 * Z.of_nat i, 2))
                       (seq 0 (S (List.length us))))).
  { rewrite (scan_run a m p us 0 fuel (Some 0)); try lia.
    - reflexivity.
    - exact Hunits.
    - exact Hzero.
    - left. reflexivity. }
  rewrite (bind_ok _ _ _ _ _ Hscan). rewrite Nat2Z.id.
  assert (Hload : load_units a (List.length us) p m
                  = (Ok us, map (fun i => (p + 2 * Z.of_nat i, 2))
                              (seq 0 (List.length us)))).
  { apply load_units_run; try lia. intros i Hi. apply Hunits. exact Hi. }
  rewrite (bind_ok _ _ _ _ _ Hload).
  cbn [rd_ret fst snd]. rewrite app_nil_r. reflexivity.
Qed.

(** X2: for a non-null buffer of non-zero units [us] followed by a
    zero unit, [utf16PtrToString] returns the UTF-8 string of the runes
    that [us] decodes to, given fuel for the scan; every load is one
    unit of the buffer, from the first up to the zero unit and no
    further. *)
Theorem utf16PtrToString_terminated_buffer :
  forall (arch : GoArch) (fuel : nat) (m : memory) (p : Z) (us : list Z),
    0 < p ->
    p + 2 * Z.of_nat (List.length us) + 2 <= 2 ^ ptrBits arch ->
    (List.length us < fuel)%nat ->
    (forall i, (i < List.length us)%nat ->
               peek m 2 (p + 2 * Z.of_nat i) = Some (nth i us 0) /\
               nth i us 0 <> 0) ->
    peek m 2 (p + 2 * Z.of_nat (List.length us)) = Some 0 ->
    result (utf16PtrToString arch fuel p m) = Ok (gostring_of_runes (Decode us)) /\
    (forall a w : Z,
        In (a, w) (loads (utf16PtrToString arch fuel p m)) ->
        w = 2 /\
        exists i : nat, (i <= List.length us)%nat /\ a = p + 2 * Z.of_nat i).
Proof.
  intros arch fuel m p us Hp Hend Hfuel Hunits Hzero.
  rewrite (utf16PtrToString_run arch fuel m p us Hp Hend Hfuel Hunits Hzero).
  unfold result, loads. cbn [fst snd]. split; [reflexivity |].
  intros a w Hin. apply in_app_or in Hin.
  destruct Hin as [Hin | Hin]; apply in_map_iff in Hin;
    destruct Hin as [i [E Hi]]; injection E as <- <-; apply in_seq in Hi;
    (split; [reflexivity | exists i; split; [lia | reflexivity]]).
Qed.

Lemma utf16PtrToString_terminated_buffer_witness :
  result (utf16PtrToString Arch64 20 0x32140 demo_memory)
  = Ok (gostring_of_runes (Decode (codes "bob"))) /\
  (forall a w : Z,
      In (a, w) (loads (utf16PtrToString Arch64 20 0x32140 demo_memory)) ->
      w = 2 /\
      exists i : nat, (i <= List.length (codes "bob"))%nat /\
                      a = 0x32140 + 2 * Z.of_nat i).
Proof.
  apply (utf16PtrToString_terminated_buffer Arch64 20 demo_memory 0x32140
           (codes "bob")).
  - reflexivity.
  - vm_compute. discriminate.
  - vm_compute. lia.
  - intros i Hi. change (List.length (codes "bob")) with 3%nat in Hi.
    destruct i as [| [| [| i]]]; [| | | lia];
      (vm_compute; split; [reflexivity | discriminate]).
  - vm_compute. reflexivity.
Defined.

(** Units below 0x80 decode to themselves and are encoded in one byte
    each. *)
Lemma ascii_units_decode (us : list Z) :
  Forall (fun u => 0 <= u < 0x80) us ->
  gostring_of_runes (Decode us) = gostring_of_bytes (map byte_of_Z us).
Proof.
  intros H. unfold gostring_of_runes. f_equal.
  induction H as [| u us Hu _ IH]; [reflexivity |].
  cbn [Decode].
  replace (u <? surr1) with true
    by (symmetry; apply Z.ltb_lt; unfold surr1; lia).
  cbn [orb flat_map map]. rewrite IH. f_equal.
  unfold encodeRune.
  replace (u <? 0) with false by (symmetry; apply Z.ltb_ge; lia).
  replace (maxRune <? u) with false
    by (symmetry; apply Z.ltb_ge; unfold maxRune; lia).
  replace (surr1 <=? u) with false
    by (symmetry; apply Z.leb_gt; unfold surr1; lia).
  cbn [orb andb].
  replace (u <? 128) with true by (symmetry; apply Z.ltb_lt; lia).
  reflexivity.
Qed.

(** X3: a zero-terminated buffer of ASCII units is converted to the
    string of the same characters, one byte per unit. *)
Theorem utf16PtrToString_ascii :
  forall (arch : GoArch) (fuel : nat) (m : memory) (p : Z) (us : list Z),
    0 < p ->
    p + 2 * Z.of_nat (List.length us) + 2 <= 2 ^ ptrBits arch ->
    (List.length us < fuel)%nat ->
    Forall (fun u => 0 < u < 0x80) us ->
    (forall i, (i < List.length us)%nat ->
               peek m 2 (p + 2 * Z.of_nat i) = Some (nth i us 0)) ->
    peek m 2 (p + 2 * Z.of_nat (List.length us)) = Some 0 ->
    result (utf16PtrToString arch fuel p m)
    = Ok (gostring_of_bytes (map byte_of_Z us)).
Proof.
  intros arch fuel m p us Hp Hend Hfuel Hascii Hunits Hzero.
  rewrite (utf16PtrToString_run arch fuel m p us Hp Hend Hfuel).
  - unfold result. cbn [fst]. f_equal. apply ascii_units_decode.
    eapply Forall_impl; [| exact Hascii]. cbn. intros u Hu. lia.
  - intros i Hi. split; [apply Hunits; exact Hi |].
    assert (Hin : In (nth i us 0) us) by (apply nth_In; exact Hi).
    rewrite Forall_forall in Hascii. specialize (Hascii _ Hin). cbn in Hascii. lia.
  - exact Hzero.
Qed.

Lemma utf16PtrToString_ascii_witness :
  result (utf16PtrToString Arch64 20 0x31140 demo_memory) = Ok "alice"%string.
Proof.
  apply (utf16PtrToString_ascii Arch64 20 demo_memory 0x31140 (codes "alice")).
  - reflexivity.
  - vm_compute. discriminate.
  - vm_compute. lia.
  - vm_compute. repeat constructor.
  - intros i Hi. change (List.length (codes "alice")) with 5%nat in Hi.
    destruct i as [| [| [| [| [| i]]]]]; [| | | | | lia]; vm_compute; reflexivity.
  - vm_compute. reflexivity.
Defined.

(** X4: when the non-zero units run up to unmapped memory, no zero
    unit being found before, [utf16PtrToString] faults at the first
    unit that is not mapped: the scan has no bound of its own. *)
Theorem utf16PtrToString_unterminated_faults :
  forall (arch : GoArch) (fuel : nat) (m : memory) (p : Z) (us : list Z),
    0 < p ->
    p + 2 * Z.of_nat (List.length us) + 2 <= 2 ^ ptrBits arch ->
    (List.length us < fuel)%nat ->
    (forall i, (i < List.length us)%nat ->
               peek m 2 (p + 2 * Z.of_nat i) = Some (nth i us 0) /\
               nth i us 0 <> 0) ->
    peek m 2 (p + 2 * Z.of_nat (List.length us)) = None ->
    result (utf16PtrToString arch fuel p m)
    = Fault (p + 2 * Z.of_nat (List.length us)).
Proof.
  intros arch fuel m p us Hp Hend Hfuel Hunits Hnone.
  unfold utf16PtrToString.
  assert (Hnz : p <> 0) by lia. take_nonnull Hnz.
  rewrite result_bind.
  rewrite (scan_run arch m p us 0 fuel None); try lia.
  - reflexivity.
  - exact Hunits.
  - exact Hnone.
  - right. reflexivity.
Qed.

Lemma utf16PtrToString_unterminated_faults_witness :
  result (utf16PtrToString Arch64 20 0x5000
            (mem_of_regions [(0x5000, [0x61; 0; 0x62; 0])]))
  = Fault (0x5000 + 2 * Z.of_nat 2).
Proof.
  apply (utf16PtrToString_unterminated_faults Arch64 20
           (mem_of_regions [(0x5000, [0x61; 0; 0x62; 0])]) 0x5000 [0x61; 0x62]).
  - reflexivity.
  - vm_compute. discriminate.
  - vm_compute. lia.
  - intros i Hi. cbn [List.length] in Hi.
    destruct i as [| [| i]]; [| | lia];
      (vm_compute; split; [reflexivity | discriminate]).
  - vm_compute. reflexivity.
Defined.

(** ** What the element decoder returns *)

Lemma load_inv n p m v :
  result (load n p m) = Ok v -> peek m n p = Some v.
Proof.
  unfold load, result. cbn [fst].
  destruct (peek m n p); intros H; [injection H as ->; reflexivity | discriminate H].
Qed.

Lemma load_i32_inv p m v :
  result (load_i32 p m) = Ok v ->
  exists raw, peek m 4 p = Some raw /\ v = to_int32 raw.
Proof.
  unfold load_i32. rewrite result_bind.
  destruct (result (load 4 p m)) as [raw | | | |] eqn:E; intros H;
    try discriminate H.
  exists raw. split; [apply load_inv; exact E |].
  cbn in H. injection H as <-. reflexivity.
Qed.

(** X5: whenever the decoder returns an element, the pointer was not
    null, the element's [ID] is the [ID] field of the header, and its
    [Type] is the one the header's tag stands for: string for
    [vaultElementTypeString], byte array for
    [vaultElementTypeByteArray]. *)
Theorem decoded_element_matches_header :
  forall (arch : GoArch) (fuel : nat) (m : memory) (elem : Z)
         (e : VaultItemElement),
    result (convertToVaultItemElement arch fuel elem m) = Ok (Some e) ->
    elem <> 0 /\
    exists tag id : Z,
      peek m 4 (elem + elem_Type) = Some tag /\
      peek m 4 (elem + elem_ID) = Some id /\
      ID e = to_int32 id /\
      ((to_int32 tag = vaultElementTypeString /\ Type_ e = ElementTypeString) \/
       (to_int32 tag = vaultElementTypeByteArray /\
        Type_ e = ElementTypeByteArray)).
Proof.
  intros arch fuel m elem e H.
  unfold convertToVaultItemElement in H.
  destruct (elem =? 0) eqn:Hnull; cbn [negb] in H; [discriminate H |].
  apply Z.eqb_neq in Hnull. split; [exact Hnull |].
  split_bind H. apply load_i32_inv in E. destruct E as [tag [Htag ->]].
  exists tag.
  destruct (to_int32 tag =? vaultElementTypeString) eqn:Hs.
  - apply Z.eqb_eq in Hs.
    split_bind H. apply load_i32_inv in E. destruct E as [id [Hid ->]].
    split_bind H. split_bind H.
    cbn in H. injection H as <-.
    exists id. repeat split; try assumption. left. split; [exact Hs | reflexivity].
  - destruct (to_int32 tag =? vaultElementTypeByteArray) eqn:Hb;
      [| discriminate H].
    apply Z.eqb_eq in Hb.
    split_bind H. apply load_i32_inv in E. destruct E as [id [Hid ->]].
    split_bind H. split_bind H. split_bind H.
    cbn in H. injection H as <-.
    exists id. repeat split; try assumption. right. split; [exact Hb | reflexivity].
Qed.

Lemma decoded_element_matches_header_witness :
  0x31000 <> 0 /\
  exists tag id : Z,
    peek demo_memory 4 (0x31000 + elem_Type) = Some tag /\
    peek demo_memory 4 (0x31000 + elem_ID) = Some id /\
    ID (ElemString (VaultItemElementString.mk 1 "example.com")) = to_int32 id /\
    ((to_int32 tag = vaultElementTypeString /\
      Type_ (ElemString (VaultItemElementString.mk 1 "example.com"))
      = ElementTypeString) \/
     (to_int32 tag = vaultElementTypeByteArray /\
      Type_ (ElemString (VaultItemElementString.mk 1 "example.com"))
      = ElementTypeByteArray)).
Proof.
  apply (decoded_element_matches_header Arch64 20 demo_memory 0x31000).
  vm_compute. reflexivity.
Defined.

(** X6: the decoder returns nil only for a null pointer or for a tag
    that is neither [vaultElementTypeString] nor
    [vaultElementTypeByteArray]; a string or byte-array element is
    never dropped. *)
Theorem nil_element_means_null_or_other_tag :
  forall (arch : GoArch) (fuel : nat) (m : memory) (elem : Z),
    result (convertToVaultItemElement arch fuel elem m) = Ok None ->
    elem = 0 \/
    exists tag : Z,
      peek m 4 (elem + elem_Type) = Some tag /\
      to_int32 tag <> vaultElementTypeString /\
      to_int32 tag <> vaultElementTypeByteArray.
Proof.
  intros arch fuel m elem H.
  unfold convertToVaultItemElement in H.
  destruct (elem =? 0) eqn:Hnull; cbn [negb] in H.
  - left. apply Z.eqb_eq. exact Hnull.
  - right. split_bind H. apply load_i32_inv in E. destruct E as [tag [Htag ->]].
    exists tag. split; [exact Htag |].
    destruct (to_int32 tag =? vaultElementTypeString) eqn:Hs.
    + split_bind H. split_bind H. split_bind H.
    + destruct (to_int32 tag =? vaultElementTypeByteArray) eqn:Hb.
      * split_bind H. split_bind H. split_bind H. split_bind H.
      * apply Z.eqb_neq in Hs. apply Z.eqb_neq in Hb. split; assumption.
Qed.

Lemma nil_element_means_null_or_other_tag_witness :
  0x33000 = 0 \/
  exists tag : Z,
    peek demo_memory 4 (0x33000 + elem_Type) = Some tag /\
    to_int32 tag <> vaultElementTypeString /\
    to_int32 tag <> vaultElementTypeByteArray.
Proof.
  apply (nil_element_means_null_or_other_tag Arch64 20 demo_memory 0x33000).
  vm_compute. reflexivity.
Defined.

(** X7: a string element is decoded to a string element that carries
    the header's [ID] and the string that [utf16PtrToString] reads
    at its [Data] pointer; with a null [Data] pointer that is the
    empty string, in an element that is not nil. *)
Theorem string_element_carries_its_data :
  forall (arch : GoArch) (fuel : nat) (m : memory) (elem id data : Z)
         (s : string),
    elem <> 0 ->
    peek m 4 (elem + elem_Type) = Some vaultElementTypeString ->
    peek m 4 (elem + elem_ID) = Some id ->
    peek m (Z.to_nat (ptrSize arch)) (elem + elemString_Data arch) = Some data ->
    result (utf16PtrToString arch fuel data m) = Ok s ->
    result (convertToVaultItemElement arch fuel elem m)
    = Ok (Some (ElemString (VaultItemElementString.mk (to_int32 id) s))) /\
    (data = 0 -> s = ""%string).
Proof.
  intros arch fuel m elem id data s Hnz Hty Hid Hdata Hs.
  split.
  - unfold convertToVaultItemElement. take_nonnull Hnz.
    rewrite (result_bind_ok _ _ _ _ _ (load_i32_ok _ _ _ Hty)).
    replace (to_int32 vaultElementTypeString) with vaultElementTypeString
      by reflexivity.
    rewrite Z.eqb_refl.
    rewrite (result_bind_ok _ _ _ _ _ (load_i32_ok _ _ _ Hid)).
    rewrite (result_bind_ok _ _ _ _ _ (load_ptr_ok _ _ _ _ Hdata)).
    rewrite result_bind, Hs. reflexivity.
  - intros ->. cbn in Hs. injection Hs as <-. reflexivity.
Qed.

Lemma string_element_carries_its_data_witness :
  result (convertToVaultItemElement Arch64 20 0x6000
            (mem_of_regions [(0x6000, elemString_bytes 9 0)]))
  = Ok (Some (ElemString (VaultItemElementString.mk (to_int32 9) ""))) /\
  (0 = 0 -> ""%string = ""%string).
Proof.
  apply (string_element_carries_its_data Arch64 20
           (mem_of_regions [(0x6000, elemString_bytes 9 0)]) 0x6000 9 0 "").
  - discriminate.
  - vm_compute. reflexivity.
  - vm_compute. reflexivity.
  - vm_compute. reflexivity.
  - vm_compute. reflexivity.
Defined.

(** X8: a byte-array element is decoded to a byte-array element that
    carries the header's [ID] and the copy that [goBytes] makes of
    [Length] bytes at [Value]. *)
Theorem byte_array_element_carries_its_value :
  forall (arch : GoArch) (fuel : nat) (m : memory) (elem id val len : Z)
         (bs : list byte),
    elem <> 0 ->
    peek m 4 (elem + elem_Type) = Some vaultElementTypeByteArray ->
    peek m 4 (elem + elem_ID) = Some id ->
    peek m (Z.to_nat (ptrSize arch)) (elem + elemByteArray_Value arch) = Some val ->
    peek m 4 (elem + elemByteArray_Length) = Some len ->
    result (goBytes arch val len m) = Ok bs ->
    result (convertToVaultItemElement arch fuel elem m)
    = Ok (Some (ElemByteArray (VaultItemElementByteArray.mk (to_int32 id) bs))).
Proof.
  intros arch fuel m elem id val len bs Hnz Hty Hid Hval Hlen Hbs.
  unfold convertToVaultItemElement. take_nonnull Hnz.
  rewrite (result_bind_ok _ _ _ _ _ (load_i32_ok _ _ _ Hty)).
  replace (to_int32 vaultElementTypeByteArray) with vaultElementTypeByteArray
    by reflexivity.
  replace (vaultElementTypeByteArray =? vaultElementTypeString) with false
    by reflexivity.
  rewrite Z.eqb_refl.
  rewrite (result_bind_ok _ _ _ _ _ (load_i32_ok _ _ _ Hid)).
  rewrite (result_bind_ok _ _ _ _ _ (load_ptr_ok _ _ _ _ Hval)).
  rewrite (result_bind_ok _ _ _ _ _ (load_ok 4 _ _ _ Hlen)).
  rewrite result_bind, Hbs. reflexivity.
Qed.

Lemma byte_array_element_carries_its_value_witness :
  result (convertToVaultItemElement Arch64 20 0x6000
            (mem_of_regions [(0x6000, elemByteArray_bytes 4 3 0x6100);
                             (0x6100, [1; 2; 3])]))
  = Ok (Some (ElemByteArray
                (VaultItemElementByteArray.mk (to_int32 4) [x01; x02; x03]))).
Proof.
  apply (byte_array_element_carries_its_value Arch64 20
           (mem_of_regions [(0x6000, elemByteArray_bytes 4 3 0x6100);
                            (0x6100, [1; 2; 3])]) 0x6000 4 0x6100 3).
  - discriminate.
  - vm_compute. reflexivity.
  - vm_compute. reflexivity.
  - vm_compute. reflexivity.
  - vm_compute. reflexivity.
  - vm_compute. reflexivity.
Defined.

(** ** What the item converters return *)

Lemma rem_billion (n : Z) :
  (0 <= n -> 0 <= Z.rem n 1000000000 < 1000000000) /\
  (n <= 0 -> - 1000000000 < Z.rem n 1000000000 <= 0).
Proof.
  split; intros H.
  - apply Z.rem_bound_pos; lia.
  - pose proof (Z.rem_bound_pos_neg n 1000000000) as B. lia.
Qed.

Lemma time_Unix_nsec (s n : Z) : 0 <= nsec (time_Unix s n) < 1000000000.
Proof.
  unfold time_Unix.
  destruct ((n <? 0) || (1000000000 <=? n)) eqn:Hout.
  - pose proof (Z.quot_rem' n 1000000000) as Hqr.
    destruct (rem_billion n) as [Hpos Hneg'].
    destruct (n - Z.quot n 1000000000 * 1000000000 <? 0) eqn:Hneg; cbn [nsec].
    + apply Z.ltb_lt in Hneg.
      destruct (Z_le_gt_dec n 0) as [Hle | Hgt];
        [specialize (Hneg' Hle) | specialize (Hpos ltac:(lia))]; lia.
    + apply Z.ltb_ge in Hneg.
      destruct (Z_le_gt_dec 0 n) as [Hle | Hgt];
        [specialize (Hpos Hle) | specialize (Hneg' ltac:(lia))]; lia.
  - apply orb_false_iff in Hout. destruct Hout as [H1 H2].
    apply Z.ltb_ge in H1. apply Z.leb_gt in H2. cbn [nsec]. lia.
Qed.

Lemma convertToVaultItem7_shape arch fuel m item v :
  result (convertToVaultItem7 arch fuel item m) = Ok v ->
  List.length (VI_ID v) = 16%nat /\
  0 <= nsec (VI_LastModified v) < 1000000000.
Proof.
  intros H. unfold convertToVaultItem7 in H.
  split_bind H. apply load_bytes_length in E.
  do 9 split_bind H.
  cbn in H. injection H as <-. cbn [VI_ID VI_LastModified].
  split; [exact E | apply time_Unix_nsec].
Qed.

Lemma convertToVaultItem8_shape arch fuel m item v :
  result (convertToVaultItem8 arch fuel item m) = Ok v ->
  List.length (VI_ID v) = 16%nat /\
  0 <= nsec (VI_LastModified v) < 1000000000.
Proof.
  intros H. unfold convertToVaultItem8 in H.
  split_bind H. apply load_bytes_length in E.
  do 9 split_bind H.
  cbn in H. injection H as <-. cbn [VI_ID VI_LastModified].
  split; [exact E | apply time_Unix_nsec].
Qed.

(** X9: every item that [convertToVaultItem7] or [convertToVaultItem8]
    returns has an identifier of 16 bytes and a time of last
    modification with a nanosecond part between 0 and 999999999,
    whatever the bytes of the record. *)
Theorem converted_item_is_well_formed :
  forall (arch : GoArch) (fuel : nat) (m : memory) (item : Z) (v : VaultItem),
    result (convertToVaultItem7 arch fuel item m) = Ok v \/
    result (convertToVaultItem8 arch fuel item m) = Ok v ->
    List.length (VI_ID v) = 16%nat /\
    0 <= nsec (VI_LastModified v) < 1000000000.
Proof.
  intros arch fuel m item v [H | H].
  - exact (convertToVaultItem7_shape arch fuel m item v H).
  - exact (convertToVaultItem8_shape arch fuel m item v H).
Qed.

Lemma converted_item_is_well_formed_witness :
  exists v : VaultItem,
    result (convertToVaultItem8 Arch64 20 0x20100 demo_memory) = Ok v /\
    List.length (VI_ID v) = 16%nat /\
    0 <= nsec (VI_LastModified v) < 1000000000.
Proof.
  eexists. split.
  - vm_compute. reflexivity.
  - apply (converted_item_is_well_formed Arch64 20 demo_memory 0x20100).
    right. vm_compute. reflexivity.
Defined.

Lemma to_int64_small z : - 2 ^ 63 <= z < 2 ^ 63 -> to_int64 z = z.
Proof.
  intros H. unfold to_int64.
  change (2 ^ 64) with (2 * 2 ^ 63). rewrite Z.mod_small; lia.
Qed.

(** X10: for a file time [v = hi * 2^32 + lo] whose distance from the
    Unix epoch fits [int64] nanoseconds (years 1678 to 2262), the time
    of last modification is exactly [(v - 116444736000000000) * 100]
    nanoseconds from the Unix epoch, split into seconds and a
    non-negative nanosecond part. *)
Theorem last_modified_is_the_file_time :
  forall lo hi : Z,
    0 <= lo < 2 ^ 32 -> 0 <= hi < 2 ^ 32 ->
    116444736000000000 - 92233720368547758 <= hi * 2 ^ 32 + lo ->
    hi * 2 ^ 32 + lo <= 116444736000000000 + 92233720368547758 ->
    let t := time_Unix 0 (Nanoseconds (mkFiletime lo hi)) in
    sec t * 1000000000 + nsec t = (hi * 2 ^ 32 + lo - 116444736000000000) * 100 /\
    0 <= nsec t < 1000000000.
Proof.
  intros lo hi Hlo Hhi Hmin Hmax t. subst t.
  split; [| apply time_Unix_nsec].
  change (2 ^ 32) with 4294967296 in *.
  assert (Hn : Nanoseconds (mkFiletime lo hi)
               = (hi * 4294967296 + lo - 116444736000000000) * 100).
  { unfold Nanoseconds. cbn [LowDateTime HighDateTime].
    rewrite Z.shiftl_mul_pow2 by lia. change (2 ^ 32) with 4294967296.
    rewrite (to_int64_small (hi * 4294967296))
      by (change (2 ^ 63) with 9223372036854775808; lia).
    rewrite (to_int64_small (hi * 4294967296 + lo))
      by (change (2 ^ 63) with 9223372036854775808; lia).
    rewrite (to_int64_small (hi * 4294967296 + lo - 116444736000000000))
      by (change (2 ^ 63) with 9223372036854775808; lia).
    apply to_int64_small. change (2 ^ 63) with 9223372036854775808. lia. }
  rewrite Hn.
  set (n := (hi * 4294967296 + lo - 116444736000000000) * 100).
  assert (Hrange : - 9223372036854775800 <= n <= 9223372036854775800)
    by (subst n; lia).
  clearbody n. unfold time_Unix.
  destruct ((n <? 0) || (1000000000 <=? n)) eqn:Hout; [| cbn [sec nsec]; lia].
  pose proof (Z.quot_rem' n 1000000000) as Hqr.
  assert (Hrem : - 1000000000 < Z.rem n 1000000000 < 1000000000).
  { destruct (rem_billion n) as [Hpos Hneg].
    destruct (Z_le_gt_dec 0 n) as [Hle | Hgt];
      [specialize (Hpos Hle) | specialize (Hneg ltac:(lia))]; lia. }
  replace (0 + Z.quot n 1000000000) with (Z.quot n 1000000000) by lia.
  rewrite (to_int64_small (Z.quot n 1000000000))
    by (change (2 ^ 63) with 9223372036854775808; lia).
  destruct (n - Z.quot n 1000000000 * 1000000000 <? 0); cbn [sec nsec].
  - rewrite to_int64_small by (change (2 ^ 63) with 9223372036854775808; lia).
    lia.
  - lia.
Qed.

Lemma last_modified_is_the_file_time_witness :
  let t := time_Unix 0
             (Nanoseconds (mkFiletime (demo_filetime mod 2 ^ 32)
                             (demo_filetime / 2 ^ 32))) in
  sec t * 1000000000 + nsec t
  = (demo_filetime / 2 ^ 32 * 2 ^ 32 + demo_filetime mod 2 ^ 32
     - 116444736000000000) * 100 /\
  0 <= nsec t < 1000000000.
Proof.
  apply (last_modified_is_the_file_time (demo_filetime mod 2 ^ 32)
           (demo_filetime / 2 ^ 32)).
  - vm_compute. split; [discriminate | reflexivity].
  - vm_compute. split; [discriminate | reflexivity].
  - vm_compute. discriminate.
  - vm_compute. discriminate.
Defined.

(** * Further properties of the gateway *)

(** ** The detail fetch *)

(** X11: a detail fetch that returns has made one [VaultGetItem] call,
    without a package SID on Windows 7 and with the descriptor's on
    Windows 8.  When the native side answers [NO_ERROR] and the record
    [item], the fetch returns the item converted from that record with
    a nil error, after freeing [item] once as its last call; when it
    answers a status [ret] that is not zero, the fetch returns no item
    and the error [Errno ret], without any free. *)
Theorem detail_fetch_frees_what_it_converts :
  forall (arch : GoArch) (fuel : nat) (St : Type) (api : NativeAPI St)
         (h : Z) (w : world St),
    (forall (d : sysVaultItem7) (ret item : Z) (s : St)
            (r : option VaultItem * option error) (w' : world St),
        nat_VaultGetItem api h (I7_ID d) (I7_Resource d) (I7_Identity d) None
          (native w) = ((ret, item), s) ->
        sysVaultGetItem7 arch fuel St api h d w = (Ok r, w') ->
        let ev := CallVaultGetItem h (I7_ID d) (I7_Resource d) (I7_Identity d)
                    None in
        (ret = NO_ERROR ->
         exists v : VaultItem,
           result (convertToVaultItem7 arch fuel item (nat_memory api s)) = Ok v /\
           r = (Some v, None) /\
           w' = mkWorld (nat_VaultFree api item s)
                  (trace w ++ [ev; CallVaultFree item])) /\
        (ret <> NO_ERROR ->
         r = (None, Some (Errno ret)) /\
         w' = mkWorld s (trace w ++ [ev]))) /\
    (forall (d : sysVaultItem8) (ret item : Z) (s : St)
            (r : option VaultItem * option error) (w' : world St),
        nat_VaultGetItem api h (I8_ID d) (I8_Resource d) (I8_Identity d)
          (Some (I8_PackageSid d)) (native w) = ((ret, item), s) ->
        sysVaultGetItem8 arch fuel St api h d w = (Ok r, w') ->
        let ev := CallVaultGetItem h (I8_ID d) (I8_Resource d) (I8_Identity d)
                    (Some (I8_PackageSid d)) in
        (ret = NO_ERROR ->
         exists v : VaultItem,
           result (convertToVaultItem8 arch fuel item (nat_memory api s)) = Ok v /\
           r = (Some v, None) /\
           w' = mkWorld (nat_VaultFree api item s)
                  (trace w ++ [ev; CallVaultFree item])) /\
        (ret <> NO_ERROR ->
         r = (None, Some (Errno ret)) /\
         w' = mkWorld s (trace w ++ [ev]))).
Proof.
  intros arch fuel St api h w. split.
  - intros d ret item s r w' Hcall Hrun ev. subst ev.
    unfold sysVaultGetItem7, gw_bind, call in Hrun. rewrite Hcall in Hrun.
    split.
    + intros ->. cbn [negb Z.eqb NO_ERROR] in Hrun.
      unfold deferred, gw_bind, on_memory in Hrun. cbn [native] in Hrun.
      destruct (result (convertToVaultItem7 arch fuel item (nat_memory api s)))
        as [v | | | |]; cbn in Hrun; inversion Hrun; subst.
      exists v. unfold free. cbn [native trace]. rewrite <- app_assoc.
      repeat split; reflexivity.
    + intros Hret. apply Z.eqb_neq in Hret. rewrite Hret in Hrun.
      cbn in Hrun. inversion Hrun; subst. split; reflexivity.
  - intros d ret item s r w' Hcall Hrun ev. subst ev.
    unfold sysVaultGetItem8, gw_bind, call in Hrun. rewrite Hcall in Hrun.
    split.
    + intros ->. cbn [negb Z.eqb NO_ERROR] in Hrun.
      unfold deferred, gw_bind, on_memory in Hrun. cbn [native] in Hrun.
      destruct (result (convertToVaultItem8 arch fuel item (nat_memory api s)))
        as [v | | | |]; cbn in Hrun; inversion Hrun; subst.
      exists v. unfold free. cbn [native trace]. rewrite <- app_assoc.
      repeat split; reflexivity.
    + intros Hret. apply Z.eqb_neq in Hret. rewrite Hret in Hrun.
      cbn in Hrun. inversion Hrun; subst. split; reflexivity.
Qed.

(** On the explicit native side, the fetch of the first descriptor
    converts and frees the record at [0x20000]; that of the second
    returns [Errno ERROR_NOT_FOUND] and frees nothing. *)
Lemma detail_fetch_frees_what_it_converts_witness :
  (exists v : VaultItem,
      result (convertToVaultItem8 Arch64 20 0x20000 demo_memory) = Ok v /\
      nth 0 demo_outcomes (None, None) = (Some v, None) /\
      mkWorld tt
        [CallVaultGetItem 0x77 (map byte_of_Z (uuid_bytes 1)) 0x31000 0x31100
           (Some 0);
         CallVaultFree 0x20000]
      = mkWorld (nat_VaultFree demo_api 0x20000 tt)
          (trace demo_world ++
           [CallVaultGetItem 0x77 (map byte_of_Z (uuid_bytes 1)) 0x31000 0x31100
              (Some 0);
            CallVaultFree 0x20000])) /\
  (@None VaultItem, Some (Errno ERROR_NOT_FOUND))
  = (None, Some (Errno ERROR_NOT_FOUND)) /\
  mkWorld tt
    [CallVaultGetItem 0x77 (map byte_of_Z (uuid_bytes 2)) 0x33000 0x33100 None]
  = mkWorld tt
      (trace demo_world ++
       [CallVaultGetItem 0x77 (map byte_of_Z (uuid_bytes 2)) 0x33000 0x33100 None]).
Proof.
  destruct (detail_fetch_frees_what_it_converts Arch64 20 unit demo_api 0x77
              demo_world) as [H7 H8].
  split.
  - apply (proj1 (H8 (mkItem8 (map byte_of_Z (uuid_bytes 1)) 0 0x31000 0x31100
                        0 0 (mkFiletime 0 0) 0 0 0)
                    NO_ERROR 0x20000 tt
                    (nth 0 demo_outcomes (None, None))
                    (mkWorld tt
                       [CallVaultGetItem 0x77 (map byte_of_Z (uuid_bytes 1))
                          0x31000 0x31100 (Some 0);
                        CallVaultFree 0x20000])
                    ltac:(vm_compute; reflexivity)
                    ltac:(vm_compute; reflexivity))).
    reflexivity.
  - apply (proj2 (H7 (mkItem7 (map byte_of_Z (uuid_bytes 2)) 0 0x33000 0x33100 0
                        (mkFiletime 0 0) 0 0 0)
                    ERROR_NOT_FOUND 0 tt
                    (None, Some (Errno ERROR_NOT_FOUND))
                    (mkWorld tt
                       [CallVaultGetItem 0x77 (map byte_of_Z (uuid_bytes 2))
                          0x33000 0x33100 None])
                    ltac:(vm_compute; reflexivity)
                    ltac:(vm_compute; reflexivity))).
    discriminate.
Defined.

(** X12: when the native call of a detail fetch succeeds and the
    conversion of the record panics, the panic goes on to the caller
    after the deferred free of the record: the record is freed once
    all the same. *)
Theorem detail_record_freed_on_panic :
  forall (arch : GoArch) (fuel : nat) (St : Type) (api : NativeAPI St)
         (h : Z) (d : sysVaultItem7) (w : world St) (item : Z) (s : St),
    nat_VaultGetItem api h (I7_ID d) (I7_Resource d) (I7_Identity d) None
      (native w) = ((NO_ERROR, item), s) ->
    result (convertToVaultItem7 arch fuel item (nat_memory api s)) = Panic ->
    fst (sysVaultGetItem7 arch fuel St api h d w) = Panic /\
    trace (snd (sysVaultGetItem7 arch fuel St api h d w))
    = trace w ++ [CallVaultGetItem h (I7_ID d) (I7_Resource d) (I7_Identity d) None;
                  CallVaultFree item].
Proof.
  intros arch fuel St api h d w item s Hcall Hpanic.
  unfold sysVaultGetItem7, gw_bind, call. rewrite Hcall.
  cbn [negb Z.eqb NO_ERROR]. unfold deferred, gw_bind, on_memory.
  cbn [native]. rewrite Hpanic. cbn [fst snd free trace].
  rewrite <- app_assoc. split; reflexivity.
Qed.

Lemma detail_record_freed_on_panic_witness :
  fst (sysVaultGetItem7 Arch32 20 unit oversized_api 0x77
         (mkItem7 [] 0 0 0 0 (mkFiletime 0 0) 0 0 0) demo_world) = Panic /\
  trace (snd (sysVaultGetItem7 Arch32 20 unit oversized_api 0x77
                (mkItem7 [] 0 0 0 0 (mkFiletime 0 0) 0 0 0) demo_world))
  = trace demo_world ++ [CallVaultGetItem 0x77 [] 0 0 None; CallVaultFree 0x7000].
Proof.
  apply (detail_record_freed_on_panic Arch32 20 unit oversized_api 0x77
           (mkItem7 [] 0 0 0 0 (mkFiletime 0 0) 0 0 0) demo_world 0x7000 tt).
  - reflexivity.
  - vm_compute. reflexivity.
Defined.

(** ** The list of vaults *)

Lemma load_uuids_run arch (m : memory) :
  forall (ids : list (list byte)) (p : Z),
    0 <= p ->
    p + 16 * Z.of_nat (List.length ids) < 2 ^ ptrBits arch ->
    Forall (fun g => List.length g = 16%nat) ids ->
    (forall i, (i < 16 * List.length ids)%nat ->
               m (p + Z.of_nat i) = Some (nth i (List.concat ids) x00)) ->
    result (load_uuids arch (List.length ids) p m) = Ok ids.
Proof.
  induction ids as [| g ids IH]; intros p Hp Hend Hlen Hmem.
  - reflexivity.
  - inversion Hlen as [| g' ids' Hg Hrest]; subst.
    cbn [List.length load_uuids List.concat] in *.
    assert (Hfirst : load_bytes 16 (p) m
                     = (Ok g, map (fun i => (p + Z.of_nat i, 1)) (seq 0 16))).
    { rewrite <- Hg. apply load_bytes_run. intros i Hi.
      rewrite (Hmem i) by lia. rewrite app_nth1 by exact Hi. reflexivity. }
    rewrite (result_bind_ok _ _ _ _ _ Hfirst).
    rewrite (uintptr_small arch (p + 16)) by lia.
    rewrite result_bind.
    rewrite (IH (p + 16)); try lia.
    + reflexivity.
    + exact Hrest.
    + intros i Hi.
      replace (p + 16 + Z.of_nat i) with (p + Z.of_nat (16 + i)) by lia.
      rewrite (Hmem (16 + i)%nat) by lia.
      rewrite app_nth2 by lia. rewrite Hg.
      replace (16 + i - 16)%nat with i by lia. reflexivity.
Qed.

(** X13: when the native listing of the vaults succeeds with a
    non-negative count, [List] returns the identifiers that lie at
    [guids], 16 bytes each, in their order, with a nil error; the only
    calls made are the listing and, after the copy, one free of
    [guids]. *)
Theorem List_returns_the_identifiers :
  forall (arch : GoArch) (St : Type) (api : NativeAPI St) (w : world St)
         (guids : Z) (s : St) (ids : list (list byte)),
    nat_VaultEnumerateVaults api (native w)
    = ((NO_ERROR, Z.of_nat (List.length ids), guids), s) ->
    0 <= guids ->
    guids + 16 * Z.of_nat (List.length ids) < 2 ^ ptrBits arch ->
    Forall (fun g => List.length g = 16%nat) ids ->
    (forall i, (i < 16 * List.length ids)%nat ->
               nat_memory api s (guids + Z.of_nat i)
               = Some (nth i (List.concat ids) x00)) ->
    List_ arch St api w
    = (Ok (ids, None),
       mkWorld (nat_VaultFree api guids s)
         (trace w ++ [CallVaultEnumerateVaults; CallVaultFree guids])).
Proof.
  intros arch St api w guids s ids Hcall Hp Hend Hlen Hmem.
  unfold List_, sysVaultEnumerateVaults, gw_bind, call. rewrite Hcall.
  cbn [negb Z.eqb NO_ERROR]. unfold deferred, gw_bind, on_memory.
  replace (Z.of_nat (List.length ids) <? 0) with false
    by (symmetry; apply Z.ltb_ge; lia).
  replace (2 ^ ptrBits arch <=? 16 * Z.of_nat (List.length ids)) with false
    by (symmetry; apply Z.leb_gt; lia).
  cbn [orb]. rewrite Nat2Z.id. cbn [native].
  rewrite (load_uuids_run arch (nat_memory api s) ids guids Hp Hend Hlen Hmem).
  unfold gw_ret, free. cbn [native trace]. rewrite <- app_assoc. reflexivity.
Qed.

Lemma List_returns_the_identifiers_witness :
  List_ Arch64 unit vaults_api demo_world
  = (Ok ([map byte_of_Z (uuid_bytes 0x42); map byte_of_Z (uuid_bytes 0x4b)], None),
     mkWorld (nat_VaultFree vaults_api 0x50000 tt)
       (trace demo_world ++ [CallVaultEnumerateVaults; CallVaultFree 0x50000])).
Proof.
  apply (List_returns_the_identifiers Arch64 unit vaults_api demo_world 0x50000 tt
           [map byte_of_Z (uuid_bytes 0x42); map byte_of_Z (uuid_bytes 0x4b)]).
  - reflexivity.
  - discriminate.
  - vm_compute. reflexivity.
  - repeat constructor.
  - intros i Hi. cbn [List.length] in Hi.
    do 32 (destruct i as [| i]; [vm_compute; reflexivity |]).
    lia.
Defined.

(** ** Opening a vault *)

(** X15: on every path, with whatever result, [Open] calls nothing
    but [VaultOpenVault] and [VaultGetInformation], at most three
    calls: it never closes the handle it has opened, also when it
    returns an error after having opened it, and never frees the
    strings it has read. *)
Theorem Open_never_closes_nor_frees :
  forall (arch : GoArch) (fuel : nat) (St : Type) (api : NativeAPI St)
         (id : list byte) (w : world St),
  exists new : list event,
    trace (snd (Open arch fuel St api id w)) = trace w ++ new /\
    (List.length new <= 3)%nat /\
    Forall (fun e => match e with
                     | CallVaultOpenVault _ => True
                     | CallVaultGetInformation _ _ => True
                     | _ => False
                     end) new.
Proof.
  intros arch fuel St api id w.
  unfold Open, sysVaultOpenVault, sysVaultGetInformationString, gw_bind, call,
    on_memory, gw_ret.
  destruct (nat_VaultOpenVault api id (native w)) as [[ret handle] s1].
  destruct (ret =? NO_ERROR); cbn [negb native trace snd];
    [| exists [CallVaultOpenVault id]; repeat split;
       [cbn; apply le_S, le_S, le_n | repeat constructor]].
  destruct (nat_VaultGetInformation api handle vaultInformationKindName s1)
    as [[ret2 value2] s2].
  destruct (ret2 =? NO_ERROR); cbn [negb native trace snd];
    [| exists [CallVaultOpenVault id;
               CallVaultGetInformation handle vaultInformationKindName];
       repeat split;
       [rewrite <- app_assoc; reflexivity | cbn; apply le_S, le_n
        | repeat constructor]].
  destruct (result (utf16PtrToString arch fuel value2 (nat_memory api s2)));
    cbn [native trace snd];
    try (exists [CallVaultOpenVault id;
                 CallVaultGetInformation handle vaultInformationKindName];
         repeat split;
         [rewrite <- app_assoc; reflexivity | cbn; apply le_S, le_n
          | repeat constructor]).
  destruct (useAPI7 St api).
  - exists [CallVaultOpenVault id;
            CallVaultGetInformation handle vaultInformationKindName;
            CallVaultGetInformation handle vaultInformationKindPath7].
    split; [| split; [cbn; apply le_n | repeat constructor]].
    cbn [native trace].
    destruct (nat_VaultGetInformation api handle vaultInformationKindPath7 s2)
      as [[ret3 value3] s3].
    destruct (ret3 =? NO_ERROR); cbn [negb native trace snd];
      [destruct (result (utf16PtrToString arch fuel value3 (nat_memory api s3)));
       cbn [native trace snd] |];
      rewrite <- !app_assoc; reflexivity.
  - exists [CallVaultOpenVault id;
            CallVaultGetInformation handle vaultInformationKindName;
            CallVaultGetInformation handle vaultInformationKindPath8].
    split; [| split; [cbn; apply le_n | repeat constructor]].
    cbn [native trace].
    destruct (nat_VaultGetInformation api handle vaultInformationKindPath8 s2)
      as [[ret3 value3] s3].
    destruct (ret3 =? NO_ERROR); cbn [negb native trace snd];
      [destruct (result (utf16PtrToString arch fuel value3 (nat_memory api s3)));
       cbn [native trace snd] |];
      rewrite <- !app_assoc; reflexivity.
Qed.

(** X16: [Open] returns the first failure.  When the native open
    fails, its status is returned and nothing else is called; when the
    open succeeds and the query of the name fails, that status is
    returned with a nil vault, the opened handle being left as it
    is. *)
Theorem Open_returns_the_first_failure :
  forall (arch : GoArch) (fuel : nat) (St : Type) (api : NativeAPI St)
         (id : list byte) (w : world St) (ret handle : Z) (s1 : St),
    nat_VaultOpenVault api id (native w) = ((ret, handle), s1) ->
    (ret <> NO_ERROR ->
     Open arch fuel St api id w
     = (Ok (None, Some (Errno ret)),
        mkWorld s1 (trace w ++ [CallVaultOpenVault id]))) /\
    (ret = NO_ERROR ->
     forall (ret2 value : Z) (s2 : St),
       nat_VaultGetInformation api handle vaultInformationKindName s1
       = ((ret2, value), s2) ->
       ret2 <> NO_ERROR ->
       Open arch fuel St api id w
       = (Ok (None, Some (Errno ret2)),
          mkWorld s2
            (trace w ++ [CallVaultOpenVault id;
                         CallVaultGetInformation handle vaultInformationKindName]))).
Proof.
  intros arch fuel St api id w ret handle s1 Hopen. split.
  - intros Hret. apply Z.eqb_neq in Hret.
    unfold Open, sysVaultOpenVault, gw_bind, call. rewrite Hopen, Hret.
    reflexivity.
  - intros -> ret2 value s2 Hinfo Hret2. apply Z.eqb_neq in Hret2.
    unfold Open, sysVaultOpenVault, sysVaultGetInformationString, gw_bind, call.
    rewrite Hopen. cbn [negb Z.eqb NO_ERROR gw_ret native trace].
    rewrite Hinfo, Hret2. cbn [negb gw_ret]. rewrite <- app_assoc. reflexivity.
Qed.

Lemma Open_returns_the_first_failure_witness :
  Open Arch64 20 unit (status_api ERROR_ACCESS_DENIED) [] demo_world
  = (Ok (None, Some (Errno ERROR_ACCESS_DENIED)),
     mkWorld tt (trace demo_world ++ [CallVaultOpenVault []])).
Proof.
  destruct (Open_returns_the_first_failure Arch64 20 unit
              (status_api ERROR_ACCESS_DENIED) [] demo_world
              ERROR_ACCESS_DENIED 0 tt eq_refl) as [Hfail _].
  apply Hfail. discriminate.
Defined.

(** X17: when the native open and the two queries succeed and the two
    strings are read, [Open] returns, with a nil error, a vault with
    the identifier asked for, the handle the native open gave, the
    name and the path read; the path is asked for with
    [vaultInformationKindPath7] on Windows 7 and with
    [vaultInformationKindPath8] otherwise. *)
Theorem Open_returns_the_vault :
  forall (arch : GoArch) (fuel : nat) (St : Type) (api : NativeAPI St)
         (id : list byte) (w : world St) (handle pname ppath : Z)
         (s1 s2 s3 : St) (name path : string),
    nat_VaultOpenVault api id (native w) = ((NO_ERROR, handle), s1) ->
    nat_VaultGetInformation api handle vaultInformationKindName s1
    = ((NO_ERROR, pname), s2) ->
    result (utf16PtrToString arch fuel pname (nat_memory api s2)) = Ok name ->
    nat_VaultGetInformation api handle
      (if isWindows7 (nat_GetVersion api)
       then vaultInformationKindPath7 else vaultInformationKindPath8) s2
    = ((NO_ERROR, ppath), s3) ->
    result (utf16PtrToString arch fuel ppath (nat_memory api s3)) = Ok path ->
    Open arch fuel St api id w
    = (Ok (Some (mkVault id name path handle), None),
       mkWorld s3
         (trace w ++
          [CallVaultOpenVault id;
           CallVaultGetInformation handle vaultInformationKindName;
           CallVaultGetInformation handle
             (if isWindows7 (nat_GetVersion api)
              then vaultInformationKindPath7 else vaultInformationKindPath8)])).
Proof.
  intros arch fuel St api id w handle pname ppath s1 s2 s3 name path
         Hopen Hname Hsname Hpath Hspath.
  unfold Open, sysVaultOpenVault, sysVaultGetInformationString, gw_bind, call,
    on_memory, useAPI7, gw_ret.
  rewrite Hopen. cbn [negb Z.eqb NO_ERROR native trace].
  rewrite Hname. cbn [negb Z.eqb NO_ERROR native trace].
  rewrite Hsname.
  destruct (isWindows7 (nat_GetVersion api));
    cbn [native trace];
    rewrite Hpath; cbn [negb Z.eqb NO_ERROR native trace];
    rewrite Hspath; rewrite <- !app_assoc; reflexivity.
Qed.

Lemma Open_returns_the_vault_witness :
  Open Arch64 20 unit vaults_api (map byte_of_Z (uuid_bytes 0x42)) demo_world
  = (Ok (Some (mkVault (map byte_of_Z (uuid_bytes 0x42)) "Web Credentials"
                 "C:/Vault" 0x77), None),
     mkWorld tt
       (trace demo_world ++
        [CallVaultOpenVault (map byte_of_Z (uuid_bytes 0x42));
         CallVaultGetInformation 0x77 vaultInformationKindName;
         CallVaultGetInformation 0x77
           (if isWindows7 (nat_GetVersion vaults_api)
            then vaultInformationKindPath7 else vaultInformationKindPath8)])).
Proof.
  apply (Open_returns_the_vault Arch64 20 unit vaults_api
           (map byte_of_Z (uuid_bytes 0x42)) demo_world 0x77 0x30000 0x30100
           tt tt tt).
  - reflexivity.
  - reflexivity.
  - vm_compute. reflexivity.
  - reflexivity.
  - vm_compute. reflexivity.
Defined.

(** ** The layout switch *)

(** X18: [isWindows7] holds exactly for version 6.1, whatever the build
    number in the upper bits of the version word. *)
Theorem isWindows7_is_version_6_1 :
  forall major minor build : Z,
    0 <= major < 256 -> 0 <= minor < 256 -> 0 <= build ->
    isWindows7 (major + 256 * minor + 65536 * build)
    = (major =? 6) && (minor =? 1).
Proof.
  intros major minor build Hmaj Hmin Hb.
  unfold isWindows7.
  replace (major + 256 * minor + 65536 * build)
    with (major + (minor + 256 * build) * 256) by lia.
  rewrite Z.shiftr_div_pow2 by lia. change (2 ^ 8) with 256.
  rewrite Z.mod_add by lia. rewrite (Z.mod_small major) by lia.
  rewrite Z.div_add by lia. rewrite (Z.div_small major) by lia.
  replace (0 + (minor + 256 * build)) with (minor + build * 256) by lia.
  rewrite Z.mod_add by lia. rewrite (Z.mod_small minor) by lia.
  reflexivity.
Qed.

Lemma isWindows7_is_version_6_1_witness :
  isWindows7 (6 + 256 * 1 + 65536 * 7601) = (6 =? 6) && (1 =? 1) /\
  isWindows7 (6 + 256 * 2 + 65536 * 9200) = (6 =? 6) && (2 =? 1).
Proof.
  split.
  - apply (isWindows7_is_version_6_1 6 1 7601); lia.
  - apply (isWindows7_is_version_6_1 6 2 9200); lia.
Defined.

(** ** A closed vault *)

(** X19: [Close] does not look at the handle.  A second [Close] on
    the vault a first one gave back passes [InvalidHandle] to the
    native close, and gives the same vault back again. *)
Theorem second_Close_passes_InvalidHandle :
  forall (arch : GoArch) (St : Type) (api : NativeAPI St)
         (t : Vault) (w : world St),
    let closed := mkVault (V_ID t) (V_Name t) (V_Path t) (InvalidHandle arch) in
    fst (Close arch St api t w) = Ok closed /\
    fst (Close arch St api closed (snd (Close arch St api t w))) = Ok closed /\
    trace (snd (Close arch St api closed (snd (Close arch St api t w))))
    = trace w ++ [CallVaultCloseVault (V_handle t);
                  CallVaultCloseVault (InvalidHandle arch)].
Proof.
  intros arch St api t w closed. subst closed.
  unfold Close, sysVaultCloseVault, gw_bind, call.
  destruct (nat_VaultCloseVault api (V_handle t) (native w)) as [ret s].
  destruct (ret =? NO_ERROR); cbn [negb gw_ret fst snd native trace V_handle
                                       V_ID V_Name V_Path];
    (destruct (nat_VaultCloseVault api (InvalidHandle arch) s) as [ret' s'];
     destruct (ret' =? NO_ERROR); cbn [negb gw_ret fst snd native trace];
     rewrite <- app_assoc; repeat split; reflexivity).
Qed.

(** X20: after [Close], [Items] asks the native side for the items of
    [InvalidHandle]; when the native side refuses that handle, [Items]
    returns its status as the error and no item. *)
Theorem Items_after_Close_uses_InvalidHandle :
  forall (arch : GoArch) (fuel : nat) (St : Type) (api : NativeAPI St)
         (t closed : Vault) (w w1 : world St) (ret count items : Z) (s : St),
    Close arch St api t w = (Ok closed, w1) ->
    nat_VaultEnumerateItems api (InvalidHandle arch) (native w1)
    = ((ret, count, items), s) ->
    ret <> NO_ERROR ->
    Items arch fuel St api closed w1
    = (Ok ([], Some (Errno ret)),
       mkWorld s (trace w ++ [CallVaultCloseVault (V_handle t);
                              CallVaultEnumerateItems (InvalidHandle arch)])).
Proof.
  intros arch fuel St api t closed w w1 ret count items s Hclose Henum Hret.
  unfold Close, sysVaultCloseVault, gw_bind, call in Hclose.
  destruct (nat_VaultCloseVault api (V_handle t) (native w)) as [r s0].
  assert (Hc : closed = mkVault (V_ID t) (V_Name t) (V_Path t) (InvalidHandle arch)
               /\ w1 = mkWorld s0 (trace w ++ [CallVaultCloseVault (V_handle t)])).
  { destruct (r =? NO_ERROR); cbn in Hclose; inversion Hclose; split; reflexivity. }
  destruct Hc as [-> ->].
  unfold Items, sysVaultEnumerateItems, gw_bind, call.
  cbn [V_handle native trace] in *. rewrite Henum.
  apply Z.eqb_neq in Hret. rewrite Hret. cbn [negb gw_ret].
  rewrite <- app_assoc. reflexivity.
Qed.

Lemma Items_after_Close_uses_InvalidHandle_witness :
  Items Arch64 20 unit vaults_api
    (mkVault (V_ID demo_vault) (V_Name demo_vault) (V_Path demo_vault)
       (InvalidHandle Arch64))
    (mkWorld tt (trace demo_world ++ [CallVaultCloseVault (V_handle demo_vault)]))
  = (Ok ([], Some (Errno 6)),
     mkWorld tt (trace demo_world ++
                 [CallVaultCloseVault (V_handle demo_vault);
                  CallVaultEnumerateItems (InvalidHandle Arch64)])).
Proof.
  apply (Items_after_Close_uses_InvalidHandle Arch64 20 unit vaults_api
           demo_vault _ demo_world _ 6 0 0 tt).
  - vm_compute. reflexivity.
  - vm_compute. reflexivity.
  - discriminate.
Defined.

(** ** Listings of any size *)

(** X21: when the native listing succeeds with a count of zero or
    less, [sysVaultEnumerateItems] fetches nothing, returns no item
    and a nil error, and frees the listed buffer once. *)
Theorem empty_listing_is_freed :
  forall (arch : GoArch) (fuel : nat) (St : Type) (api : NativeAPI St)
         (h : Z) (w : world St) (count items : Z) (s : St),
    nat_VaultEnumerateItems api h (native w) = ((NO_ERROR, count, items), s) ->
    count <= 0 ->
    sysVaultEnumerateItems arch fuel St api h w
    = (Ok ([], None),
       mkWorld (nat_VaultFree api items s)
         (trace w ++ [CallVaultEnumerateItems h; CallVaultFree items])).
Proof.
  intros arch fuel St api h w count items s Henum Hcount.
  unfold sysVaultEnumerateItems, gw_bind, call. rewrite Henum.
  cbn [negb Z.eqb NO_ERROR]. unfold deferred, gw_bind, gw_ret, free.
  replace (Z.to_nat count) with 0%nat by lia.
  destruct (useAPI7 St api); cbn [fetch_loop gw_ret native trace];
    unfold gw_ret; rewrite <- app_assoc; reflexivity.
Qed.

Lemma empty_listing_is_freed_witness :
  sysVaultEnumerateItems Arch64 20 unit vaults_api 0x77 demo_world
  = (Ok ([], None),
     mkWorld (nat_VaultFree vaults_api 0 tt)
       (trace demo_world ++ [CallVaultEnumerateItems 0x77; CallVaultFree 0])).
Proof.
  apply (empty_listing_is_freed Arch64 20 unit vaults_api 0x77 demo_world 0 0 tt).
  - vm_compute. reflexivity.
  - discriminate.
Defined.

Section Outcomes.

Variable arch : GoArch.
Variable St : Type.
Variable api : NativeAPI St.
Variable D : Type.
Variable size : Z.
Variable load : Z -> Rd D.
Variable get : D -> Gw St (option VaultItem * option error).
Variable items : Z.

Hypothesis get_events : forall d w, fetch_events (get d w) w.

(** Every fetch of a listing gives an item or an error, never both
    and never neither. *)
Lemma fetch_outcomes_shape :
  forall n i w outs w2,
    fetch_outcomes arch St api size load get items n i w = (Ok outs, w2) ->
    Forall (fun o => (exists v, o = (Some v, None)) \/
                     (exists e, o = (None, Some e))) outs.
Proof.
  induction n as [| n IH]; intros i w outs w2 H.
  - cbn in H. inversion H; subst. constructor.
  - cbn [fetch_outcomes] in H. unfold gw_bind, on_memory in H.
    destruct (result (load _ _)) as [d | | | |]; try discriminate H.
    pose proof (get_events d w) as Hev.
    destruct (get d w) as [[r | | | |] w1]; try discriminate H.
    destruct (fetch_outcomes arch St api size load get items n (i + 1) w1)
      as [[rs | | | |] w2'] eqn:Hrest; try discriminate H.
    cbn in H. inversion H; subst. clear H.
    constructor; [| exact (IH _ _ _ _ Hrest)].
    destruct (Hev r w1 eq_refl) as [ev [_ Hr]].
    destruct Hr as [[v [p [-> _]]] | [e [-> _]]];
      [left; exists v | right; exists e]; reflexivity.
Qed.

End Outcomes.

Lemma fetched_accounting (outs : list (option VaultItem * option error)) :
  Forall (fun o => (exists v, o = (Some v, None)) \/
                   (exists e, o = (None, Some e))) outs ->
  (List.length (fetched outs)
   + List.length (filter (fun o => match snd o with
                                   | Some _ => true
                                   | None => false
                                   end) outs)
   = List.length outs)%nat.
Proof.
  induction 1 as [| o outs Ho _ IH]; [reflexivity |].
  destruct Ho as [[v ->] | [e ->]]; cbn [fetched flat_map filter snd app List.length];
    change (flat_map _ outs) with (fetched outs); lia.
Qed.

(** X22: in a listing whose detail fetches all return, every
    descriptor is accounted for: the number of items returned and the
    number of fetches that gave an error add up to the count of the
    listing; no item is returned twice and none is made up. *)
Theorem listing_accounts_for_every_descriptor :
  forall (arch : GoArch) (fuel : nat) (St : Type) (api : NativeAPI St)
         (t : Vault) (w : world St) (count items : Z) (s1 : St)
         (outs : list (option VaultItem * option error)) (w2 : world St),
    nat_VaultEnumerateItems api (V_handle t) (native w)
    = ((NO_ERROR, count, items), s1) ->
    item_outcomes arch fuel St api (V_handle t) items count
      (mkWorld s1 (trace w ++ [CallVaultEnumerateItems (V_handle t)]))
    = (Ok outs, w2) ->
    exists result : list VaultItem,
      fst (Items arch fuel St api t w) = Ok (result, None) /\
      (List.length result
       + List.length (filter (fun o => match snd o with
                                       | Some _ => true
                                       | None => false
                                       end) outs)
       = Z.to_nat count)%nat.
Proof.
  intros arch fuel St api t w count items s1 outs w2 Henum Hout.
  destruct (sysVaultEnumerateItems_run arch fuel St api _ w _ _ _ _ _ Henum Hout)
    as [Hrun [Hlen _]].
  exists (fetched outs). unfold Items. rewrite Hrun. split; [reflexivity |].
  rewrite <- Hlen. apply fetched_accounting.
  unfold item_outcomes in Hout. destruct (useAPI7 St api).
  - exact (fetch_outcomes_shape arch St api _ _ _ _ _
             (sysVaultGetItem7_events arch fuel St api (V_handle t)) _ _ _ _ _ Hout).
  - exact (fetch_outcomes_shape arch St api _ _ _ _ _
             (sysVaultGetItem8_events arch fuel St api (V_handle t)) _ _ _ _ _ Hout).
Qed.

Lemma listing_accounts_for_every_descriptor_witness :
  exists result : list VaultItem,
    fst (Items Arch64 20 unit demo_api demo_vault demo_world) = Ok (result, None) /\
    (List.length result
     + List.length (filter (fun o => match snd o with
                                     | Some _ => true
                                     | None => false
                                     end) demo_outcomes)
     = Z.to_nat 3)%nat.
Proof.
  apply (listing_accounts_for_every_descriptor Arch64 20 unit demo_api demo_vault
           demo_world 3 0x10000 tt demo_outcomes
           (snd (item_outcomes Arch64 20 unit demo_api 0x77 0x10000 3
                   (mkWorld tt [CallVaultEnumerateItems 0x77])))).
  - vm_compute. reflexivity.
  - vm_compute. reflexivity.
Defined.
